(** * video-chat: the helpers of [utility.py]

    A shallow embedding of the three functions of [utility.py]

      - [get_video_id_from_url]            (the identifier extractor),
      - [get_transcript]                   (the transcript fetcher),
      - [generate_prompt_from_transcript]  (the prompt builder),

    together with the parts of the Python standard library they call
    ([str] methods, [urllib.parse.urlparse], [urllib.parse.parse_qs],
    [re.search]).  Python text is modelled as [string]; characters with a
    code above 127 stand for non-ASCII characters.  Python exceptions are
    values of [exn], and code that may raise lives in the [outcome] monad.
    Calls to [logger] return nothing and take no part in the control flow;
    they are left out. *)

From Stdlib Require Import Ascii String List Bool Arith Lia.
From stdpp Require Import base strings gmap list.

Local Open Scope nat_scope.

(** ** Exceptions and results *)

Module Py.

(** The subclasses of [Exception] that the code under study can meet.
    [ServiceError] stands for any other subclass of [Exception] raised by
    the captions service, named by its class. *)
Inductive exn : Type :=
  | ValueError
  | IndexError
  | TypeError
  | AttributeError
  | ServiceError (class_name : string).

Inductive outcome (A : Type) : Type :=
  | Ok (a : A)
  | Raise (e : exn).
Arguments Ok {A} a.
Arguments Raise {A} e.

#[export] Instance outcome_ret : MRet outcome := fun A a => Ok a.
#[export] Instance outcome_bind : MBind outcome := fun A B f m =>
  match m with
  | Ok a => f a
  | Raise e => Raise e
  end.

(** [try: body except Exception as e: handler e] *)
Definition try_except {A} (body : outcome A) (handler : exn -> outcome A)
  : outcome A :=
  match body with
  | Ok a => Ok a
  | Raise e => handler e
  end.

(** ** [str] *)

Definition code (c : ascii) : nat := nat_of_ascii c.

Definition isascii (c : ascii) : bool := code c <? 128.
Definition isupper (c : ascii) : bool := (65 <=? code c) && (code c <=? 90).
Definition islower (c : ascii) : bool := (97 <=? code c) && (code c <=? 122).
Definition isdigit (c : ascii) : bool := (48 <=? code c) && (code c <=? 57).
Definition isalpha (c : ascii) : bool := isupper c || islower c.

Definition char_lower (c : ascii) : ascii :=
  if isupper c then ascii_of_nat (code c + 32) else c.

(** [s.lower()], on the ASCII letters. *)
Fixpoint lower (s : string) : string :=
  match s with
  | EmptyString => EmptyString
  | String c s' => String (char_lower c) (lower s')
  end.

(** [s.isascii()] *)
Fixpoint str_isascii (s : string) : bool :=
  match s with
  | EmptyString => true
  | String c s' => isascii c && str_isascii s'
  end.

(** [s.startswith(p)] *)
Definition startswith (p s : string) : bool := String.prefix p s.

(** [sub in s] *)
Fixpoint contains (sub s : string) : bool :=
  startswith sub s ||
  match s with
  | EmptyString => false
  | String _ s' => contains sub s'
  end.

(** [c in s] for a single character *)
Fixpoint has_char (c : ascii) (s : string) : bool :=
  match s with
  | EmptyString => false
  | String x s' => Ascii.eqb x c || has_char c s'
  end.

(** [s[n:]] *)
Fixpoint drop_str (n : nat) (s : string) : string :=
  match n, s with
  | 0, _ => s
  | S _, EmptyString => EmptyString
  | S k, String _ s' => drop_str k s'
  end.

(** [s[:n]] *)
Fixpoint take_str (n : nat) (s : string) : string :=
  match n, s with
  | 0, _ => EmptyString
  | S _, EmptyString => EmptyString
  | S k, String c s' => String c (take_str k s')
  end.

(** [s.find(c)], [None] for -1 *)
Fixpoint find_char (c : ascii) (s : string) : option nat :=
  match s with
  | EmptyString => None
  | String x s' =>
      if Ascii.eqb x c then Some 0
      else match find_char c s' with
           | Some i => Some (S i)
           | None => None
           end
  end.

(** [s.rfind(c)], [None] for -1 *)
Fixpoint rfind_char (c : ascii) (s : string) : option nat :=
  match s with
  | EmptyString => None
  | String x s' =>
      match rfind_char c s' with
      | Some i => Some (S i)
      | None => if Ascii.eqb x c then Some 0 else None
      end
  end.

(** [s.lstrip(chars)], [s.rstrip(chars)] and [s.strip(chars)], the set
    [chars] given by its membership test. *)
Fixpoint lstrip (chars : ascii -> bool) (s : string) : string :=
  match s with
  | EmptyString => EmptyString
  | String c s' => if chars c then lstrip chars s' else s
  end.

Fixpoint rstrip (chars : ascii -> bool) (s : string) : string :=
  match s with
  | EmptyString => EmptyString
  | String c s' =>
      match rstrip chars s' with
      | EmptyString => if chars c then EmptyString else String c EmptyString
      | r => String c r
      end
  end.

Definition strip (chars : ascii -> bool) (s : string) : string :=
  rstrip chars (lstrip chars s).

(** [s.replace(c, "")] *)
Fixpoint remove_char (c : ascii) (s : string) : string :=
  match s with
  | EmptyString => EmptyString
  | String x s' =>
      if Ascii.eqb x c then remove_char c s' else String x (remove_char c s')
  end.

(** [s.replace(a, b)] for single characters *)
Fixpoint replace_char (a b : ascii) (s : string) : string :=
  match s with
  | EmptyString => EmptyString
  | String x s' =>
      String (if Ascii.eqb x a then b else x) (replace_char a b s')
  end.

(** [s.split(sep)] for a non-empty separator: the pieces between the
    occurrences of [sep], found from the left and not overlapping.  [skip]
    counts the characters of the current occurrence still to be passed. *)
Fixpoint split_from (sep : string) (skip : nat) (s : string) : list string :=
  match s with
  | EmptyString => [EmptyString]
  | String c s' =>
      match skip with
      | S k => split_from sep k s'
      | 0 =>
          if startswith sep s
          then EmptyString :: split_from sep (String.length sep - 1) s'
          else match split_from sep 0 s' with
               | piece :: pieces => String c piece :: pieces
               | [] => [String c EmptyString]
               end
      end
  end.

Definition split (sep s : string) : list string := split_from sep 0 s.

(** [s.split(c, 1)] for a character that occurs in [s]: the text before
    its first occurrence and the text after it; [None] when [c] does not
    occur (the split then has one piece). *)
Fixpoint split_once (c : ascii) (s : string) : option (string * string) :=
  match s with
  | EmptyString => None
  | String x s' =>
      if Ascii.eqb x c then Some (EmptyString, s')
      else match split_once c s' with
           | Some (a, b) => Some (String x a, b)
           | None => None
           end
  end.

(** [l[i]], which raises [IndexError] out of range *)
Definition index {A} (l : list A) (i : nat) : outcome A :=
  match l !! i with
  | Some x => Ok x
  | None => Raise IndexError
  end.

End Py.
Export Py.

(** ** [urllib.parse] *)

Module Urllib.

(** Three checks of [urllib.parse] look at Unicode data or at the syntax of
    IP addresses.  They are taken as given: every result below holds for
    any behaviour of theirs.
    - [bracketed_host_ok h]: [_check_bracketed_host h] returns (it raises
      [ValueError] otherwise);
    - [nfkc_netloc_ok n]: [_checknetloc n] returns for a netloc [n] that is
      not ASCII (it raises [ValueError] otherwise);
    - [unquote_escapes s]: the percent-decoding of a string [s] that
      contains the character %. *)
Record stdlib : Type := {
  bracketed_host_ok : string -> bool;
  nfkc_netloc_ok : string -> bool;
  unquote_escapes : string -> string
}.

Record ParseResult : Type := {
  scheme : string;
  netloc : string;
  path : string;
  params : string;
  query : string;
  fragment : string
}.

(** [_WHATWG_C0_CONTROL_OR_SPACE] *)
Definition c0_control_or_space (c : ascii) : bool := code c <=? 32.

(** [_UNSAFE_URL_BYTES_TO_REMOVE]: tab, carriage return, line feed *)
Definition remove_unsafe (url : string) : string :=
  remove_char "010" (remove_char "013" (remove_char "009" url)).

(** [scheme_chars] *)
Definition scheme_char (c : ascii) : bool :=
  isalpha c || isdigit c || has_char c "+-.".

Fixpoint all_chars (p : ascii -> bool) (s : string) : bool :=
  match s with
  | EmptyString => true
  | String c s' => p c && all_chars p s'
  end.

(** [uses_params] *)
Definition uses_params : list string :=
  [""; "ftp"; "hdl"; "prospero"; "http"; "imap"; "https"; "shttp"; "rtsp";
   "rtspu"; "sip"; "sips"; "mms"; "sftp"; "tel"].

(** The scheme of [urlsplit]: the text before the first colon when it
    starts with an ASCII letter and holds scheme characters only. *)
Definition split_scheme (url : string) : string * string :=
  match find_char ":" url, url with
  | Some (S i), String c0 _ =>
      if isascii c0 && isalpha c0 && all_chars scheme_char (take_str (S i) url)
      then (lower (take_str (S i) url), drop_str (S (S i)) url)
      else (EmptyString, url)
  | _, _ => (EmptyString, url)
  end.

(** [url.find(c, start)] *)
Definition find_from (c : ascii) (start : nat) (url : string) : option nat :=
  match find_char c (drop_str start url) with
  | Some i => Some (start + i)
  | None => None
  end.

(** [_splitnetloc(url, start)] *)
Definition splitnetloc (url : string) (start : nat) : string * string :=
  let delim :=
    fold_left
      (fun delim c =>
         match find_from c start url with
         | Some wdelim => Nat.min delim wdelim
         | None => delim
         end)
      ["/"%char; "?"%char; "#"%char] (String.length url) in
  (take_str (delim - start) (drop_str start url), drop_str delim url).

(** [netloc.partition('[')[2].partition(']')[0]] *)
Definition bracketed_host (netloc : string) : string :=
  let after :=
    match split_once "[" netloc with
    | Some (_, rest) => rest
    | None => EmptyString
    end in
  match split_once "]" after with
  | Some (host, _) => host
  | None => after
  end.

(** The checks of [urlsplit] on the netloc that raise [ValueError]. *)
Definition check_brackets (L : stdlib) (netloc : string) : outcome unit :=
  if (has_char "[" netloc && negb (has_char "]" netloc))
     || (has_char "]" netloc && negb (has_char "[" netloc))
  then Raise ValueError
  else if has_char "[" netloc && has_char "]" netloc
  then if bracketed_host_ok L (bracketed_host netloc)
       then Ok tt else Raise ValueError
  else Ok tt.

(** [_checknetloc] *)
Definition checknetloc (L : stdlib) (netloc : string) : outcome unit :=
  if String.eqb netloc EmptyString || str_isascii netloc then Ok tt
  else if nfkc_netloc_ok L netloc then Ok tt
  else Raise ValueError.

(** [urlsplit(url)]: scheme, netloc, path, query, fragment *)
Definition urlsplit (L : stdlib) (url : string)
  : outcome (string * string * string * string * string) :=
  let url := lstrip c0_control_or_space url in
  let url := remove_unsafe url in
  let '(scheme, url) := split_scheme url in
  '(netloc, url) ←
    (if String.eqb (take_str 2 url) "//"
     then let '(netloc, url) := splitnetloc url 2 in
          _ ← check_brackets L netloc; mret (netloc, url)
     else mret (EmptyString, url));
  let '(url, fragment) :=
    match split_once "#" url with
    | Some (u, f) => (u, f)
    | None => (url, EmptyString)
    end in
  let '(url, query) :=
    match split_once "?" url with
    | Some (u, q) => (u, q)
    | None => (url, EmptyString)
    end in
  _ ← checknetloc L netloc;
  mret (scheme, netloc, url, query, fragment).

(** [_splitparams(url)], called when [';' in url] *)
Definition splitparams (url : string) : string * string :=
  let cut i := (take_str i url, drop_str (S i) url) in
  if has_char "/" url then
    match rfind_char "/" url with
    | Some r =>
        match find_from ";" r url with
        | Some i => cut i
        | None => (url, EmptyString)
        end
    | None => (url, EmptyString)
    end
  else
    match find_char ";" url with
    | Some i => cut i
    | None => (url, EmptyString)
    end.

(** [urlparse(url)] *)
Definition urlparse (L : stdlib) (url : string) : outcome ParseResult :=
  '(scheme, netloc, url, query, fragment) ← urlsplit L url;
  let '(url, params) :=
    if bool_decide (scheme ∈ uses_params) && has_char ";" url
    then splitparams url
    else (url, EmptyString) in
  mret {| scheme := scheme; netloc := netloc; path := url;
          params := params; query := query; fragment := fragment |}.

(** [unquote(s)]: a string without % is returned as it is. *)
Definition unquote (L : stdlib) (s : string) : string :=
  if has_char "%" s then unquote_escapes L s else s.

(** [parse_qsl(qs)] with its default arguments: fields are separated by
    [&]; a field without [=] or with nothing after it is dropped
    ([keep_blank_values] is false). *)
Fixpoint parse_fields (L : stdlib) (fields : list string)
  : list (string * string) :=
  match fields with
  | [] => []
  | name_value :: rest =>
      if String.eqb name_value EmptyString then parse_fields L rest
      else match split_once "=" name_value with
           | None => parse_fields L rest
           | Some (n, v) =>
               if String.length v =? 0 then parse_fields L rest
               else (unquote L (replace_char "+" " " n),
                     unquote L (replace_char "+" " " v))
                    :: parse_fields L rest
           end
  end.

Definition parse_qsl (L : stdlib) (qs : string) : list (string * string) :=
  if String.eqb qs EmptyString then []
  else parse_fields L (split "&" qs).

(** [parse_qs(qs)]: the dictionary from each name to the list of its
    values, in order. *)
Definition parse_qs (L : stdlib) (qs : string) : gmap string (list string) :=
  fold_left
    (fun parsed_result '(name, value) =>
       match parsed_result !! name with
       | Some values => <[name := values ++ [value]]> parsed_result
       | None => <[name := [value]]> parsed_result
       end)
    (parse_qsl L qs) ∅.

End Urllib.
Export Urllib.

(** ** [re] *)

Module Re.

(** The regular expressions that [utility.py] uses.  Each pattern has one
    capturing group, so one constructor for group 1 is enough; [(?:...)]
    groups nothing and has no constructor of its own. *)
Inductive regex : Type :=
  | Chr (c : ascii)                  (* a literal character *)
  | Dot                              (* [.]: any character but a newline *)
  | Class (p : ascii -> bool)        (* a character class *)
  | Cat (r1 r2 : regex)              (* concatenation *)
  | Alt (r1 r2 : regex)              (* [r1|r2] *)
  | Rep (n : nat) (r : regex)        (* [r{n}] *)
  | Star (r : regex)                 (* [r*], greedy *)
  | Group1 (r : regex).              (* [(r)], the first capturing group *)

(** A literal string *)
Fixpoint Str (s : string) : regex :=
  match s with
  | EmptyString => Rep 0 Dot
  | String c EmptyString => Chr c
  | String c s' => Cat (Chr c) (Str s')
  end.

(** Backtracking matcher, as [re] matches: [m r s g k] matches [r] at the
    front of [s], with [g] the text captured so far, and hands the rest of
    the string to the continuation [k]; alternatives are tried from the
    left, a star takes as much as it can and gives back on failure. *)
Fixpoint m {R} (r : regex) (s : string) (g : option string)
    (k : string -> option string -> option R) {struct r} : option R :=
  match r with
  | Chr c =>
      match s with
      | String x s' => if Ascii.eqb x c then k s' g else None
      | EmptyString => None
      end
  | Dot =>
      match s with
      | String x s' => if Ascii.eqb x "010" then None else k s' g
      | EmptyString => None
      end
  | Class p =>
      match s with
      | String x s' => if p x then k s' g else None
      | EmptyString => None
      end
  | Cat r1 r2 => m r1 s g (fun s' g' => m r2 s' g' k)
  | Alt r1 r2 =>
      match m r1 s g k with
      | Some res => Some res
      | None => m r2 s g k
      end
  | Rep n r1 =>
      (fix rep (n : nat) (s : string) (g : option string) : option R :=
         match n with
         | 0 => k s g
         | S n' => m r1 s g (fun s' g' => rep n' s' g')
         end) n s g
  | Star r1 =>
      (fix star (fuel : nat) (s : string) (g : option string) : option R :=
         match fuel with
         | 0 => k s g
         | S fuel' =>
             match m r1 s g
                     (fun s' g' =>
                        if String.length s' <? String.length s
                        then star fuel' s' g' else None) with
             | Some res => Some res
             | None => k s g
             end
         end) (S (String.length s)) s g
  | Group1 r1 =>
      m r1 s g
        (fun s' _ =>
           k s' (Some (take_str (String.length s - String.length s') s)))
  end.

(** A match object, reduced to [match.group(1)] ([None] when the group
    took no part in the match). *)
Record match_object : Type := { group1 : option string }.

(** [re.search(pattern, s)]: the match at the leftmost position that has
    one. *)
Fixpoint search (pattern : regex) (s : string) : option match_object :=
  match m pattern s None (fun _ g => Some {| group1 := g |}) with
  | Some mo => Some mo
  | None =>
      match s with
      | EmptyString => None
      | String _ s' => search pattern s'
      end
  end.

End Re.
Export Re.

(** ** The identifier extractor *)

(** [[0-9A-Za-z_-]] *)
Definition id_char (c : ascii) : bool :=
  isdigit c || isupper c || islower c || has_char c "_-".

(** The three patterns of the regex fallback, in the order of the list
    [patterns] of [get_video_id_from_url]:
      (?:v=|\/)([0-9A-Za-z_-]{11}).*
      (?:embed\/)([0-9A-Za-z_-]{11})
      (?:watch\?v=)([0-9A-Za-z_-]{11}) *)
Definition pattern_generic : regex :=
  Cat (Alt (Str "v=") (Chr "/")) (Cat (Group1 (Rep 11 (Class id_char))) (Star Dot)).
Definition pattern_embed : regex :=
  Cat (Str "embed/") (Group1 (Rep 11 (Class id_char))).
Definition pattern_watch : regex :=
  Cat (Str "watch?v=") (Group1 (Rep 11 (Class id_char))).

Definition patterns : list regex :=
  [pattern_generic; pattern_embed; pattern_watch].

(** A block of statements that may [return]: [Some v] when it returned [v],
    [None] when control reached its end. *)
Definition returned (A : Type) : Type := option A.

(** The body of the [try] statement: the three structured strategies. *)
Definition structured_parsing (L : stdlib) (youtube_url : string)
  : outcome (returned string) :=
  parsed_url ← urlparse L youtube_url;
  watch ←
    (if contains "youtube.com" (netloc parsed_url) then
       let query_params := parse_qs L (query parsed_url) in
       match query_params !! "v" with
       | Some values => video_id ← index values 0; mret (Some video_id)
       | None => mret None
       end
     else mret None);
  match watch with
  | Some video_id => mret (Some video_id)
  | None =>
      if contains "youtu.be" (netloc parsed_url) then
        video_id ← index (split "/" (strip (Ascii.eqb "/") (path parsed_url))) 0;
        mret (Some video_id)
      else if contains "youtube.com" (netloc parsed_url)
              && contains "/embed/" (path parsed_url) then
        after ← index (split "/embed/" (path parsed_url)) 1;
        segment ← index (split "/" after) 0;
        video_id ← index (split "?" segment) 0;
        mret (Some video_id)
      else mret None
  end.

(** The loop over [patterns]: the first pattern found in the raw string
    returns its group 1. *)
Fixpoint regex_fallback (ps : list regex) (youtube_url : string)
  : returned (option string) :=
  match ps with
  | [] => None
  | pattern :: rest =>
      match search pattern youtube_url with
      | Some mo => Some (group1 mo)
      | None => regex_fallback rest youtube_url
      end
  end.

(** [get_video_id_from_url(youtube_url)]: [Ok (Some id)] for a returned
    string, [Ok None] for Python's [None]. *)
Definition get_video_id_from_url (L : stdlib) (youtube_url : string)
  : outcome (option string) :=
  parsed ← try_except (structured_parsing L youtube_url) (fun _ => mret None);
  match parsed with
  | Some video_id => mret (Some video_id)
  | None =>
      match regex_fallback patterns youtube_url with
      | Some video_id => mret video_id
      | None => mret None
      end
  end.

(** A standard library for running the model: it rejects every bracketed
    host and every non-ASCII netloc, and leaves escapes undecoded.  None of
    the inputs evaluated below reaches these three functions. *)
Definition plain_stdlib : stdlib :=
  {| bracketed_host_ok := fun _ => false;
     nfkc_netloc_ok := fun _ => false;
     unquote_escapes := fun s => s |}.

(** ** The data of the captions service *)

(** The Python values a segment can hold. *)
Inductive pyval : Type :=
  | PStr (s : string)
  | PFloat (bits : Z)     (* a float, by its IEEE 754 bit pattern *)
  | PNone.

(** One element of a transcript, as [generate_prompt_from_transcript]
    tells them apart. *)
Inductive segment : Type :=
  | Snippet (text start duration : pyval)   (* an object with a [text] attribute *)
  | Mapping (d : gmap string pyval)         (* a [dict] *)
  | Other (str : string).                   (* any other value, with its [str()] *)

(** A track descriptor: the attributes [language_code] and [language]
    ([None] when the object has no such attribute), and what its methods
    [fetch()] and [translate(code)] do when called. *)
#[warnings="-register-all"] Inductive descriptor : Type :=
  Descriptor {
    language_code : option string;
    language : option string;
    fetch : outcome (list segment);
    translate : string -> outcome descriptor
  }.

(** The captions service: [YouTubeTranscriptApi().list(video_id)]. *)
Record service : Type := { api_list : string -> outcome (list descriptor) }.

(** The calls made to the service, in the order they are made. *)
Inductive event : Type :=
  | EList (video_id : string)
  | EFetch (d : descriptor)
  | ETranslate (d : descriptor) (lang : string).

(** Code that calls the service: the calls it made, and what it came to. *)
Record io (A : Type) : Type := IO { trace : list event; result : outcome A }.
Arguments IO {A} trace result.
Arguments trace {A} _.
Arguments result {A} _.

#[export] Instance io_ret : MRet io := fun A a => IO [] (Ok a).
#[export] Instance io_bind : MBind io := fun A B f c =>
  match result c with
  | Ok a => IO (trace c ++ trace (f a)) (result (f a))
  | Raise e => IO (trace c) (Raise e)
  end.

(** A call to the service: it is recorded, and it returns or raises. *)
Definition call {A} (ev : event) (o : outcome A) : io A := IO [ev] o.

(** [try: body except Exception as e: handler e] around service calls *)
Definition try_io {A} (body : io A) (handler : exn -> io A) : io A :=
  match result body with
  | Ok a => body
  | Raise e => IO (trace body ++ trace (handler e)) (result (handler e))
  end.

(** ** The transcript fetcher *)

(** [getattr(obj, name, default)] *)
Definition getattr (attr : option string) (default : string) : string :=
  match attr with
  | Some s => s
  | None => default
  end.

(** [lang_code.startswith('en') or 'english' in lang.lower()] *)
Definition is_english (transcript_info : descriptor) : bool :=
  let lang_code := getattr (language_code transcript_info) "" in
  let lang := getattr (language transcript_info) "" in
  startswith "en" lang_code || contains "english" (lower lang).

(** The body of the first loop, inside its [try]. *)
Definition english_attempt (transcript_info : descriptor)
  : io (returned (list segment)) :=
  if is_english transcript_info then
    transcript_data ← call (EFetch transcript_info) (fetch transcript_info);
    mret (Some transcript_data)
  else mret None.

(** The first loop: an exception in its body goes on with the next
    descriptor. *)
Fixpoint english_pass (transcript_list : list descriptor)
  : io (returned (list segment)) :=
  match transcript_list with
  | [] => mret None
  | transcript_info :: rest =>
      r ← try_io (english_attempt transcript_info) (fun _ => mret None);
      match r with
      | Some transcript_data => mret (Some transcript_data)
      | None => english_pass rest
      end
  end.

(** The body of the second loop, inside its [try]. *)
Definition translation_attempt (transcript_info : descriptor)
  : io (returned (list segment)) :=
  translated ← call (ETranslate transcript_info "en")
                    (translate transcript_info "en");
  transcript_data ← call (EFetch translated) (fetch translated);
  mret (Some transcript_data).

(** The second loop. *)
Fixpoint translation_pass (transcript_list : list descriptor)
  : io (returned (list segment)) :=
  match transcript_list with
  | [] => mret None
  | transcript_info :: rest =>
      r ← try_io (translation_attempt transcript_info) (fun _ => mret None);
      match r with
      | Some transcript_data => mret (Some transcript_data)
      | None => translation_pass rest
      end
  end.

(** [not video_id] *)
Definition falsy (video_id : option string) : bool :=
  match video_id with
  | None => true
  | Some s => String.eqb s ""
  end.

(** [get_transcript(video_id)]: [Some segments] for a returned transcript,
    [None] for Python's [None]. *)
Definition get_transcript (svc : service) (video_id : option string)
  : io (option (list segment)) :=
  if falsy video_id then mret None
  else
    match video_id with
    | Some vid =>
        try_io
          (transcript_list ← call (EList vid) (api_list svc vid);
           english ← english_pass transcript_list;
           match english with
           | Some transcript_data => mret (Some transcript_data)
           | None =>
               translated ← translation_pass transcript_list;
               match translated with
               | Some transcript_data => mret (Some transcript_data)
               | None => mret None
               end
           end)
          (fun e =>
             match e with
             | AttributeError => mret None
             | _ => mret None
             end)
    | None => mret None
    end.

(** ** The prompt builder *)

Definition header : string :=
  "Summarize the following video:" +:+ String "010" EmptyString.

(** [a + b] for a string [a]: it raises [TypeError] unless [b] is a
    string too. *)
Definition str_add (a : string) (b : pyval) : outcome string :=
  match b with
  | PStr s => Ok (a +:+ s)
  | _ => Raise TypeError
  end.

(** [d.get(key, default)] *)
Definition dict_get (d : gmap string pyval) (key : string) (default : pyval)
  : pyval :=
  match d !! key with
  | Some v => v
  | None => default
  end.

(** What one turn of the loop appends to [prompt]. *)
Definition appended (trans : segment) : outcome string :=
  match trans with
  | Snippet text _ _ => str_add " " text
  | Mapping d => str_add " " (dict_get d "text" (PStr ""))
  | Other str => str_add " " (PStr str)
  end.

Fixpoint prompt_loop (transcript : list segment) (prompt : string)
  : outcome string :=
  match transcript with
  | [] => Ok prompt
  | trans :: rest =>
      piece ← appended trans;
      prompt_loop rest (prompt +:+ piece)
  end.

(** [generate_prompt_from_transcript(transcript)]; [None] for Python's
    [None], over which [for] raises [TypeError]. *)
Definition generate_prompt_from_transcript (transcript : option (list segment))
  : outcome string :=
  match transcript with
  | Some segments => prompt_loop segments header
  | None => Raise TypeError
  end.

(** ** Words of the specification *)

(** The text of a segment, in the words of the specification: the [text]
    attribute if there is one, else the value at the key ["text"] of a
    mapping, the empty string when the key is missing, else the textual
    conversion of the value.  [None] when what is found is not text. *)
Definition text_of_segment (trans : segment) : option string :=
  match trans with
  | Snippet (PStr t) _ _ => Some t
  | Snippet _ _ _ => None
  | Mapping d =>
      match d !! "text" with
      | Some (PStr t) => Some t
      | Some _ => None
      | None => Some ""
      end
  | Other str => Some str
  end.

(** A well-formed segment: its text, where it has one, is a string. *)
Definition well_formed (trans : segment) : bool :=
  match text_of_segment trans with
  | Some _ => true
  | None => false
  end.

(** The first pass gets nothing out of a descriptor: it does not qualify
    as English, or fetching it raises. *)
Definition english_fails (d : descriptor) : Prop :=
  is_english d = true -> exists e, fetch d = Raise e.

(** The second pass gets nothing out of a descriptor: the request for a
    translation raises, or fetching the translation does. *)
Definition translation_fails (d : descriptor) : Prop :=
  (exists e, translate d "en" = Raise e)
  \/ (exists t e, translate d "en" = Ok t /\ fetch t = Raise e).

(** The calls of the second pass on one descriptor. *)
Definition translation_calls (d : descriptor) : list event :=
  ETranslate d "en" ::
  match translate d "en" with
  | Ok t => [EFetch t]
  | Raise _ => []
  end.

Definition is_translate (ev : event) : bool :=
  match ev with
  | ETranslate _ _ => true
  | _ => false
  end.

(** A string starts with eleven identifier characters. *)
Definition eleven (s : string) : bool :=
  (11 <=? String.length s) && all_chars id_char (take_str 11 s).

(** The concatenation of a list of strings. *)
Definition join (pieces : list string) : string :=
  fold_right String.append EmptyString pieces.

(** ** Sample data *)

Definition not_translatable : string -> outcome descriptor :=
  fun _ => Raise (ServiceError "NotTranslatable").

Definition hello : segment := Snippet (PStr "hello") (PFloat 0) (PFloat 0).
Definition hola : segment := Snippet (PStr "hola") (PFloat 0) (PFloat 0).
Definition salut : segment := Snippet (PStr "salut") (PFloat 0) (PFloat 0).

Definition track_en : descriptor :=
  {| language_code := Some "en"; language := Some "English (auto-generated)";
     fetch := Ok [hello]; translate := not_translatable |}.

Definition track_en_broken : descriptor :=
  {| language_code := Some "en-GB"; language := Some "English (United Kingdom)";
     fetch := Raise (ServiceError "CouldNotRetrieveTranscript");
     translate := not_translatable |}.

Definition track_es_translated : descriptor :=
  {| language_code := Some "en"; language := Some "English";
     fetch := Ok [hello]; translate := not_translatable |}.

Definition track_es : descriptor :=
  {| language_code := Some "es"; language := Some "Spanish";
     fetch := Ok [hola]; translate := fun _ => Ok track_es_translated |}.

Definition track_fr : descriptor :=
  {| language_code := Some "fr"; language := Some "French";
     fetch := Ok [salut]; translate := not_translatable |}.

(** A mapping with a start offset and no text. *)
Definition no_text : gmap string pyval := {["start" := PFloat 0]}.

Definition service_of (ds : list descriptor) : service :=
  {| api_list := fun _ => Ok ds |}.

(** * Properties *)

(** ** Helper lemmas on the standard library *)

Lemma parse_fold_nonempty (pairs : list (string * string)) :
  forall acc : gmap string (list string),
    (forall n vs, acc !! n = Some vs -> vs <> []) ->
    forall n vs,
      fold_left
        (fun parsed_result '(name, value) =>
           match parsed_result !! name with
           | Some values => <[name := values ++ [value]]> parsed_result
           | None => <[name := [value]]> parsed_result
           end) pairs acc !! n = Some vs ->
      vs <> [].
Proof.
  induction pairs as [|[name value] pairs IH]; intros acc Hacc n vs; simpl.
  - apply Hacc.
  - apply IH. clear n vs. intros n vs.
    destruct (acc !! name) as [values|] eqn:Hname.
    + rewrite lookup_insert_Some. intros [[_ <-]|[_ Hn]].
      * destruct values; discriminate.
      * eapply Hacc, Hn.
    + rewrite lookup_insert_Some. intros [[_ <-]|[_ Hn]].
      * discriminate.
      * eapply Hacc, Hn.
Qed.

(** [parse_qs] never maps a name to an empty list. *)
Lemma parse_qs_values_nonempty (L : stdlib) (qs name : string) (values : list string) :
  parse_qs L qs !! name = Some values -> values <> [].
Proof.
  unfold parse_qs. apply parse_fold_nonempty.
  intros n vs. rewrite lookup_empty. discriminate.
Qed.

(** ** The regex fallback *)

Lemma length_drop_str (n : nat) (s : string) :
  String.length (drop_str n s) = String.length s - n.
Proof.
  revert s. induction n as [|n IH]; intros [|c s]; simpl; auto.
Qed.

Lemma length_take_str (n : nat) (s : string) :
  n <= String.length s -> String.length (take_str n s) = n.
Proof.
  revert s. induction n as [|n IH]; intros [|c s]; simpl; intros Hn;
    try reflexivity; try lia.
  rewrite IH; [reflexivity | lia].
Qed.

(** [n] characters of a class: they are there and belong to the class, or
    the match fails. *)
Lemma m_rep_class {R} (p : ascii -> bool) (n : nat) :
  forall (s : string) (g : option string) (k : string -> option string -> option R),
    m (Rep n (Class p)) s g k
    = if (n <=? String.length s) && all_chars p (take_str n s)
      then k (drop_str n s) g else None.
Proof.
  induction n as [|n IH]; intros s g k.
  - destruct s; reflexivity.
  - destruct s as [|c s]; [reflexivity|].
    specialize (IH s g k). simpl in IH |- *.
    destruct (p c); [exact IH|].
    destruct (n <=? String.length s); reflexivity.
Qed.

Lemma m_group_eleven {R} (s : string) (g : option string)
    (k : string -> option string -> option R) :
  m (Group1 (Rep 11 (Class id_char))) s g k
  = if eleven s then k (drop_str 11 s) (Some (take_str 11 s)) else None.
Proof.
  change (m (Group1 (Rep 11 (Class id_char))) s g k)
    with (m (Rep 11 (Class id_char)) s g
            (fun s' _ =>
               k s' (Some (take_str (String.length s - String.length s') s)))).
  rewrite m_rep_class. unfold eleven.
  destruct (11 <=? String.length s) eqn:Hlen; [|reflexivity].
  destruct (all_chars id_char (take_str 11 s)); [|reflexivity].
  cbn [andb]. rewrite length_drop_str.
  apply Nat.leb_le in Hlen.
  replace (String.length s - (String.length s - 11)) with 11 by lia.
  reflexivity.
Qed.

Lemma m_star_dot (s : string) (g : option string) :
  m (Star Dot) s g (fun _ g' => Some {| group1 := g' |})
  = Some {| group1 := g |}.
Proof.
  change (m (Star Dot) s g (fun _ g' => Some {| group1 := g' |}))
    with ((fix star (fuel : nat) (s : string) (g : option string)
             : option match_object :=
             match fuel with
             | 0 => Some {| group1 := g |}
             | S fuel' =>
                 match m Dot s g
                         (fun s' g' =>
                            if String.length s' <? String.length s
                            then star fuel' s' g' else None) with
                 | Some res => Some res
                 | None => Some {| group1 := g |}
                 end
             end) (S (String.length s)) s g).
  generalize (S (String.length s)). intros fuel. revert s.
  induction fuel as [|fuel IH]; intros s; [reflexivity|].
  destruct s as [|c s]; [reflexivity|].
  cbn [m]. destruct (Ascii.eqb c "010"); [reflexivity|].
  replace (String.length s <? String.length (String c s)) with true
    by (symmetry; apply Nat.ltb_lt; simpl; lia).
  rewrite IH. reflexivity.
Qed.

Lemma eleven_take (s : string) :
  eleven s = true ->
  String.length (take_str 11 s) = 11
  /\ all_chars id_char (take_str 11 s) = true.
Proof.
  unfold eleven. intros H. apply andb_true_iff in H. destruct H as [Hlen Hall].
  apply Nat.leb_le in Hlen. split; [apply length_take_str, Hlen | exact Hall].
Qed.

(** What follows the prefix in the first pattern: group 1 takes eleven
    identifier characters and [.*] takes the rest of the line. *)
Lemma m_identifier_then_rest (s : string) (g : option string) :
  m (Cat (Group1 (Rep 11 (Class id_char))) (Star Dot)) s g
    (fun _ g' => Some {| group1 := g' |})
  = if eleven s then Some {| group1 := Some (take_str 11 s) |} else None.
Proof.
  change (m (Cat (Group1 (Rep 11 (Class id_char))) (Star Dot)) s g
            (fun _ g' => Some {| group1 := g' |}))
    with (m (Group1 (Rep 11 (Class id_char))) s g
            (fun s' g' => m (Star Dot) s' g' (fun _ g'' => Some {| group1 := g'' |}))).
  rewrite m_group_eleven. destruct (eleven s); [|reflexivity].
  apply m_star_dot.
Qed.

(** What follows the prefix in the second and the third pattern. *)
Lemma m_identifier (s : string) (g : option string) :
  m (Group1 (Rep 11 (Class id_char))) s g (fun _ g' => Some {| group1 := g' |})
  = if eleven s then Some {| group1 := Some (take_str 11 s) |} else None.
Proof. apply m_group_eleven. Qed.

(** A match of the first pattern captures eleven identifier characters. *)
Lemma generic_match_captures (s : string) (mo : match_object) :
  m pattern_generic s None (fun _ g => Some {| group1 := g |}) = Some mo ->
  exists video_id,
    group1 mo = Some video_id
    /\ String.length video_id = 11
    /\ all_chars id_char video_id = true.
Proof.
  unfold pattern_generic.
  remember (Cat (Group1 (Rep 11 (Class id_char))) (Star Dot)) as T eqn:HT.
  cbn [m Str]. intros H.
  assert (Htail : forall s' g' mo',
             m T s' g' (fun _ g => Some {| group1 := g |}) = Some mo' ->
             exists video_id, group1 mo' = Some video_id
               /\ String.length video_id = 11
               /\ all_chars id_char video_id = true).
  { intros s' g' mo'. rewrite HT, m_identifier_then_rest.
    destruct (eleven s') eqn:He; [|discriminate].
    intros [= <-]. eexists. split; [reflexivity|]. apply eleven_take, He. }
  clear HT.
  destruct s as [|c1 s]; [discriminate H|].
  destruct (Ascii.eqb c1 "v").
  - destruct s as [|c2 s].
    + destruct (Ascii.eqb c1 "/"); [eapply Htail, H | discriminate H].
    + destruct (Ascii.eqb c2 "=").
      * destruct (m T s None _) as [r|] eqn:E.
        -- injection H as <-. eapply Htail, E.
        -- destruct (Ascii.eqb c1 "/"); [eapply Htail, H | discriminate H].
      * destruct (Ascii.eqb c1 "/"); [eapply Htail, H | discriminate H].
  - destruct (Ascii.eqb c1 "/"); [eapply Htail, H | discriminate H].
Qed.

(** A literal string matches when the text starts with it. *)
Lemma m_str {R} (lit : string) :
  lit <> EmptyString ->
  forall (s : string) (g : option string) (k : string -> option string -> option R),
    m (Str lit) s g k
    = if startswith lit s then k (drop_str (String.length lit) s) g else None.
Proof.
  induction lit as [|c lit IH]; [congruence|].
  intros _ s g k. destruct lit as [|c' lit'].
  - destruct s as [|x s]; [reflexivity|].
    unfold startswith. cbn [Str m String.prefix String.length drop_str].
    destruct (ascii_dec c x) as [->|Hne].
    + rewrite Ascii.eqb_refl. destruct s; reflexivity.
    + replace (Ascii.eqb x c) with false; [reflexivity|].
      symmetry. apply Ascii.eqb_neq. congruence.
  - change (Str (String c (String c' lit')))
      with (Cat (Chr c) (Str (String c' lit'))).
    destruct s as [|x s]; [reflexivity|].
    unfold startswith in IH |- *.
    cbn [m String.prefix].
    destruct (ascii_dec c x) as [->|Hne].
    + rewrite Ascii.eqb_refl. rewrite IH by discriminate. reflexivity.
    + replace (Ascii.eqb x c) with false; [reflexivity|].
      symmetry. apply Ascii.eqb_neq. congruence.
Qed.

Lemma prefixed_match_captures (lit : string) (s : string) (mo : match_object) :
  lit <> EmptyString ->
  m (Cat (Str lit) (Group1 (Rep 11 (Class id_char)))) s None
    (fun _ g => Some {| group1 := g |}) = Some mo ->
  exists video_id,
    group1 mo = Some video_id
    /\ String.length video_id = 11
    /\ all_chars id_char video_id = true.
Proof.
  intros Hlit.
  change (m (Cat (Str lit) (Group1 (Rep 11 (Class id_char)))) s None
            (fun _ g => Some {| group1 := g |}))
    with (m (Str lit) s None
            (fun s' g' => m (Group1 (Rep 11 (Class id_char))) s' g'
                            (fun _ g => Some {| group1 := g |}))).
  rewrite (m_str lit Hlit).
  destruct (startswith lit s); [|discriminate].
  rewrite m_identifier.
  destruct (eleven _) eqn:He; [|discriminate].
  intros [= <-]. eexists. split; [reflexivity|]. apply eleven_take, He.
Qed.

(** A match found by [search] is a match at some position. *)
Lemma search_found (pattern : regex) (s : string) (mo : match_object) :
  search pattern s = Some mo ->
  exists rest, m pattern rest None (fun _ g => Some {| group1 := g |}) = Some mo.
Proof.
  induction s as [|c s IH]; simpl.
  - destruct (m pattern "" None _) eqn:E; [|discriminate].
    intros [= <-]. eauto.
  - destruct (m pattern (String c s) None _) eqn:E.
    + intros [= <-]. eauto.
    + exact IH.
Qed.

(** A match at the end of a prefix is found by [search], unless an earlier
    one is. *)
Lemma search_finds (pattern : regex) (before s : string) (mo : match_object) :
  m pattern s None (fun _ g => Some {| group1 := g |}) = Some mo ->
  exists mo', search pattern (before +:+ s) = Some mo'.
Proof.
  intros Hm. induction before as [|c before [mo' IH]].
  - exists mo. change ("" +:+ s) with s.
    destruct s; simpl; rewrite Hm; reflexivity.
  - change (String c before +:+ s) with (String c (before +:+ s)).
    simpl. rewrite IH.
    destruct (m pattern (String c (before +:+ s)) None _); eauto.
Qed.

(** Whatever the regex fallback returns has eleven identifier characters. *)
Lemma fallback_captures (youtube_url : string) (g : option string) :
  regex_fallback patterns youtube_url = Some g ->
  exists video_id,
    g = Some video_id
    /\ String.length video_id = 11
    /\ all_chars id_char video_id = true.
Proof.
  unfold patterns. cbn [regex_fallback].
  destruct (search pattern_generic youtube_url) as [mo|] eqn:E1.
  { intros [= <-]. destruct (search_found _ _ _ E1) as [rest Hm].
    apply (generic_match_captures rest mo Hm). }
  destruct (search pattern_embed youtube_url) as [mo|] eqn:E2.
  { intros [= <-]. destruct (search_found _ _ _ E2) as [rest Hm].
    apply (prefixed_match_captures "embed/" rest mo); [discriminate | exact Hm]. }
  destruct (search pattern_watch youtube_url) as [mo|] eqn:E3.
  { intros [= <-]. destruct (search_found _ _ _ E3) as [rest Hm].
    apply (prefixed_match_captures "watch?v=" rest mo); [discriminate | exact Hm]. }
  discriminate.
Qed.

Lemma length_append (a b : string) :
  String.length (a +:+ b) = String.length a + String.length b.
Proof.
  induction a as [|c a IH]; [reflexivity|].
  change (String c a +:+ b) with (String c (a +:+ b)). simpl. rewrite IH. reflexivity.
Qed.

Lemma take_str_append (a b : string) : take_str (String.length a) (a +:+ b) = a.
Proof.
  induction a as [|c a IH]; [destruct b; reflexivity|].
  change (String c a +:+ b) with (String c (a +:+ b)). simpl. rewrite IH. reflexivity.
Qed.

Lemma eleven_append (id rest : string) :
  String.length id = 11 -> all_chars id_char id = true ->
  eleven (id +:+ rest) = true /\ take_str 11 (id +:+ rest) = id.
Proof.
  intros Hlen Hall. unfold eleven.
  rewrite length_append, Hlen, <- Hlen, take_str_append, Hall, Hlen.
  split; reflexivity.
Qed.

(** The first pattern matches at a slash, and at [v=], followed by eleven
    identifier characters. *)
Lemma generic_matches_at (id rest : string) :
  String.length id = 11 -> all_chars id_char id = true ->
  m pattern_generic ("/" +:+ id +:+ rest) None (fun _ g => Some {| group1 := g |})
  = Some {| group1 := Some id |}
  /\ m pattern_generic ("v=" +:+ id +:+ rest) None (fun _ g => Some {| group1 := g |})
     = Some {| group1 := Some id |}.
Proof.
  intros Hlen Hall.
  destruct (eleven_append id rest Hlen Hall) as [He Htake].
  unfold pattern_generic.
  remember (Cat (Group1 (Rep 11 (Class id_char))) (Star Dot)) as T eqn:HT.
  assert (Htail : m T (id +:+ rest) None (fun _ g => Some {| group1 := g |})
                  = Some {| group1 := Some id |}).
  { rewrite HT, m_identifier_then_rest, He, Htake. reflexivity. }
  split.
  - change ("/" +:+ id +:+ rest) with (String "/" (id +:+ rest)).
    cbn [m Str]. cbn. exact Htail.
  - change ("v=" +:+ id +:+ rest) with (String "v" (String "=" (id +:+ rest))).
    cbn [m Str]. cbn. rewrite Htail. reflexivity.
Qed.

(** ** The identifier extractor *)

Section Extractor.

Variable L : stdlib.

(** C1. When the parsed host contains youtube.com and the query has a
    parameter named v, [get_video_id_from_url] returns the first value of
    that parameter as it is, whatever its length and its characters. *)
Theorem watch_parameter_returned_unvalidated
    (youtube_url : string) (parsed_url : ParseResult) (values : list string) :
  urlparse L youtube_url = Ok parsed_url ->
  contains "youtube.com" (netloc parsed_url) = true ->
  parse_qs L (query parsed_url) !! "v" = Some values ->
  exists video_id,
    values !! 0 = Some video_id
    /\ get_video_id_from_url L youtube_url = Ok (Some video_id).
Proof.
  intros Hparse Hhost Hv.
  destruct values as [|video_id rest].
  - exfalso. eapply parse_qs_values_nonempty; [exact Hv | reflexivity].
  - exists video_id. split; [reflexivity|].
    unfold get_video_id_from_url, structured_parsing.
    rewrite Hparse. cbn. rewrite Hhost, Hv. reflexivity.
Qed.

(** C2. The identifier returned for https://youtu.be/ is the empty string:
    the short-link branch returns the first piece of the stripped path
    without looking at it. *)
Theorem short_link_returns_empty_identifier :
  get_video_id_from_url L "https://youtu.be/" = Ok (Some "").
Proof. vm_compute. reflexivity. Qed.

Lemma extractor_returns (youtube_url : string) :
  exists r, get_video_id_from_url L youtube_url = Ok r.
Proof.
  unfold get_video_id_from_url.
  generalize (regex_fallback patterns youtube_url). intros fallback.
  destruct (structured_parsing L youtube_url) as [[video_id|]|e];
    destruct fallback as [r|]; cbn; eauto.
Qed.

(** When the structured strategies return nothing, a slash or [v=]
    followed by eleven identifier characters anywhere in the raw string is
    enough for an identifier of eleven characters to be returned. *)
Lemma fallback_returns_identifier (before prefix id rest : string) :
  prefix = "/" \/ prefix = "v=" ->
  String.length id = 11 ->
  all_chars id_char id = true ->
  try_except (structured_parsing L (before +:+ prefix +:+ id +:+ rest))
             (fun _ => mret None) = Ok None ->
  exists video_id,
    get_video_id_from_url L (before +:+ prefix +:+ id +:+ rest) = Ok (Some video_id)
    /\ String.length video_id = 11
    /\ all_chars id_char video_id = true.
Proof.
  intros Hprefix Hlen Hall Hstructured.
  destruct (generic_matches_at id rest Hlen Hall) as [Hslash Hv].
  assert (Hsearch : exists mo,
             search pattern_generic (before +:+ prefix +:+ id +:+ rest) = Some mo).
  { destruct Hprefix as [-> | ->]; eapply search_finds; eassumption. }
  destruct Hsearch as [mo Hmo].
  assert (Hfb : regex_fallback patterns (before +:+ prefix +:+ id +:+ rest)
                = Some (group1 mo)).
  { unfold patterns. cbn [regex_fallback]. rewrite Hmo. reflexivity. }
  destruct (fallback_captures _ _ Hfb) as (video_id & Hg & Hvid).
  exists video_id. split; [|exact Hvid].
  unfold get_video_id_from_url. rewrite Hstructured.
  unfold mbind, outcome_bind. rewrite Hfb, Hg. reflexivity.
Qed.

(** C10. A URL on a host that is neither youtube.com nor youtu.be gets an
    identifier of 11 characters from the first pattern of the regex
    fallback.  That pattern looks at the raw string only: wherever the
    structured strategies return nothing, a slash or [v=] followed by
    eleven identifier characters gives an identifier. *)
Theorem fallback_accepts_foreign_host :
  (exists youtube_url parsed_url video_id,
     urlparse L youtube_url = Ok parsed_url
     /\ contains "youtube.com" (netloc parsed_url) = false
     /\ contains "youtu.be" (netloc parsed_url) = false
     /\ structured_parsing L youtube_url = Ok None
     /\ search pattern_generic youtube_url = Some {| group1 := Some video_id |}
     /\ get_video_id_from_url L youtube_url = Ok (Some video_id)
     /\ String.length video_id = 11)
  /\ (forall before prefix id rest,
        prefix = "/" \/ prefix = "v=" ->
        String.length id = 11 ->
        all_chars id_char id = true ->
        try_except (structured_parsing L (before +:+ prefix +:+ id +:+ rest))
                   (fun _ => mret None) = Ok None ->
        exists video_id,
          get_video_id_from_url L (before +:+ prefix +:+ id +:+ rest)
          = Ok (Some video_id)
          /\ String.length video_id = 11
          /\ all_chars id_char video_id = true).
Proof.
  split.
  - exists "https://example.com/abcdefghijk".
    eexists. exists "abcdefghijk".
    split; [vm_compute; reflexivity|].
    repeat split; vm_compute; reflexivity.
  - apply fallback_returns_identifier.
Qed.

End Extractor.

(** Witness of C10: text that is no URL, with [v=] and eleven identifier
    characters in it. *)
Lemma fallback_accepts_foreign_host_witness :
  exists video_id,
    get_video_id_from_url plain_stdlib
      ("see " +:+ "v=" +:+ "dQw4w9WgXcQ" +:+ " (video)") = Ok (Some video_id)
    /\ String.length video_id = 11
    /\ all_chars id_char video_id = true.
Proof.
  apply (proj2 (fallback_accepts_foreign_host plain_stdlib)
           "see " "v=" "dQw4w9WgXcQ" " (video)").
  - right. reflexivity.
  - reflexivity.
  - reflexivity.
  - vm_compute. reflexivity.
Defined.

(** Witness of C1: a value of three characters, one of them outside the
    identifier characters. *)
Lemma watch_parameter_returned_unvalidated_witness :
  exists video_id,
    ["a!b"] !! 0 = Some video_id
    /\ get_video_id_from_url plain_stdlib "https://www.youtube.com/watch?v=a!b&t=1"
       = Ok (Some video_id).
Proof.
  apply (watch_parameter_returned_unvalidated plain_stdlib
           "https://www.youtube.com/watch?v=a!b&t=1"
           {| scheme := "https"; netloc := "www.youtube.com"; path := "/watch";
              params := ""; query := "v=a!b&t=1"; fragment := "" |}).
  - vm_compute. reflexivity.
  - vm_compute. reflexivity.
  - vm_compute. reflexivity.
Defined.

(** The examples of the specification, and a few more. *)

Example watch_url :
  get_video_id_from_url plain_stdlib "https://www.youtube.com/watch?v=dQw4w9WgXcQ"
  = Ok (Some "dQw4w9WgXcQ").
Proof. vm_compute. reflexivity. Qed.

Example short_link_url :
  get_video_id_from_url plain_stdlib "https://youtu.be/dQw4w9WgXcQ"
  = Ok (Some "dQw4w9WgXcQ").
Proof. vm_compute. reflexivity. Qed.

Example short_link_url_with_query :
  get_video_id_from_url plain_stdlib "https://youtu.be/dQw4w9WgXcQ?t=10"
  = Ok (Some "dQw4w9WgXcQ").
Proof. vm_compute. reflexivity. Qed.

Example embed_url :
  get_video_id_from_url plain_stdlib
    "https://www.youtube.com/embed/dQw4w9WgXcQ?start=5"
  = Ok (Some "dQw4w9WgXcQ").
Proof. vm_compute. reflexivity. Qed.

Example garbage_url :
  get_video_id_from_url plain_stdlib "garbage" = Ok None.
Proof. vm_compute. reflexivity. Qed.

(** [urlparse] raises on the unmatched bracket; the fallback finds [v=]. *)
Example unparseable_url :
  urlparse plain_stdlib "http://[youtube.com/watch?v=dQw4w9WgXcQ" = Raise ValueError
  /\ get_video_id_from_url plain_stdlib "http://[youtube.com/watch?v=dQw4w9WgXcQ"
     = Ok (Some "dQw4w9WgXcQ").
Proof. split; vm_compute; reflexivity. Qed.

(** [parse_qs] drops a parameter whose value is blank: the query [v=] has
    no [v] in the dictionary, and nothing else in the URL gives an
    identifier. *)
Example blank_watch_parameter :
  parse_qs plain_stdlib "v=" !! "v" = None
  /\ get_video_id_from_url plain_stdlib "https://www.youtube.com/watch?v=" = Ok None.
Proof. split; vm_compute; reflexivity. Qed.

(** The embed branch returns the empty string too when nothing follows
    the marker. *)
Example embed_url_without_identifier :
  get_video_id_from_url plain_stdlib "https://www.youtube.com/embed/"
  = Ok (Some "").
Proof. vm_compute. reflexivity. Qed.

Example urlparse_parts :
  urlparse plain_stdlib "  HTTPS://www.youtube.com/a/b;p?x=1&v=a+b#frag"
  = Ok {| scheme := "https"; netloc := "www.youtube.com"; path := "/a/b";
          params := "p"; query := "x=1&v=a+b"; fragment := "frag" |}.
Proof. vm_compute. reflexivity. Qed.

Example parse_qs_values :
  parse_qs plain_stdlib "x=1&v=a+b&v=c&w=&z" !! "v" = Some ["a b"; "c"].
Proof. vm_compute. reflexivity. Qed.

Example remove_unsafe_newline :
  remove_unsafe ("a" +:+ String "010" "b") = "ab"
  /\ nat_of_ascii "010" = 10.
Proof. split; reflexivity. Qed.

Example split_slash : split "/" "a/b//c/" = ["a"; "b"; ""; "c"; ""].
Proof. reflexivity. Qed.

Example split_embed : split "/embed/" "/embed/abc/embed/d" = [""; "abc"; "d"].
Proof. reflexivity. Qed.

Example strip_slash : strip (Ascii.eqb "/") "//a/b/" = "a/b".
Proof. reflexivity. Qed.

(** ** The transcript fetcher *)

Lemma io_eta {A} (c : io A) : IO (trace c) (result c) = c.
Proof. destruct c; reflexivity. Qed.

Lemma io_bind_ok {A B} (t : list event) (a : A) (f : A -> io B) :
  IO t (Ok a) ≫= f = IO (t ++ trace (f a)) (result (f a)).
Proof. reflexivity. Qed.

(** One turn of the first loop on a descriptor that yields nothing. *)
Lemma english_turn_fails (d : descriptor) :
  english_fails d ->
  try_io (english_attempt d) (fun _ => mret None)
  = IO (if is_english d then [EFetch d] else []) (Ok None).
Proof.
  unfold english_fails, english_attempt. intros Hfail.
  destruct (is_english d).
  - destruct Hfail as [e He]; [reflexivity|].
    unfold try_io, call. cbn. rewrite He. reflexivity.
  - reflexivity.
Qed.

(** One turn of the first loop on an English descriptor that is fetched. *)
Lemma english_turn_hits (d : descriptor) (segments : list segment) :
  is_english d = true -> fetch d = Ok segments ->
  try_io (english_attempt d) (fun _ => mret None)
  = IO [EFetch d] (Ok (Some segments)).
Proof.
  unfold english_attempt. intros -> Hfetch.
  unfold try_io, call. cbn. rewrite Hfetch. reflexivity.
Qed.

Lemma english_pass_skip (before rest : list descriptor) :
  Forall english_fails before ->
  english_pass (before ++ rest)
  = IO (map EFetch (List.filter is_english before) ++ trace (english_pass rest))
       (result (english_pass rest)).
Proof.
  induction 1 as [|d before Hd _ IH]; simpl.
  - apply eq_sym, io_eta.
  - rewrite (english_turn_fails d Hd), IH.
    destruct (is_english d); reflexivity.
Qed.

Lemma english_pass_hit (d : descriptor) (after : list descriptor)
    (segments : list segment) :
  is_english d = true -> fetch d = Ok segments ->
  english_pass (d :: after) = IO [EFetch d] (Ok (Some segments)).
Proof.
  intros Heng Hfetch. simpl.
  rewrite (english_turn_hits d segments Heng Hfetch). reflexivity.
Qed.

Lemma english_pass_exhausted (ds : list descriptor) :
  Forall english_fails ds ->
  english_pass ds = IO (map EFetch (List.filter is_english ds)) (Ok None).
Proof.
  intros Hall. rewrite <- (app_nil_r ds) at 1.
  rewrite (english_pass_skip ds [] Hall). simpl.
  rewrite app_nil_r. reflexivity.
Qed.

(** One turn of the second loop, whatever the service does. *)
Lemma translation_turn (d : descriptor) :
  try_io (translation_attempt d) (fun _ => mret None)
  = IO (translation_calls d)
       (Ok match translate d "en" with
           | Ok t => match fetch t with
                     | Ok segments => Some segments
                     | Raise _ => None
                     end
           | Raise _ => None
           end).
Proof.
  unfold translation_attempt, translation_calls, try_io, call. cbn.
  destruct (translate d "en") as [t|e]; cbn; [|reflexivity].
  destruct (fetch t) as [segments|e]; reflexivity.
Qed.

Lemma translation_turn_fails (d : descriptor) :
  translation_fails d ->
  try_io (translation_attempt d) (fun _ => mret None)
  = IO (translation_calls d) (Ok None).
Proof.
  intros Hfail. rewrite translation_turn.
  destruct Hfail as [[e He]|(t & e & Ht & He)].
  - rewrite He. reflexivity.
  - rewrite Ht, He. reflexivity.
Qed.

Lemma translation_pass_skip (before rest : list descriptor) :
  Forall translation_fails before ->
  translation_pass (before ++ rest)
  = IO (flat_map translation_calls before ++ trace (translation_pass rest))
       (result (translation_pass rest)).
Proof.
  induction 1 as [|d before Hd _ IH]; simpl.
  - apply eq_sym, io_eta.
  - rewrite (translation_turn_fails d Hd), IH. cbn.
    rewrite <- app_assoc. reflexivity.
Qed.

Lemma translation_pass_hit (d t : descriptor) (after : list descriptor)
    (segments : list segment) :
  translate d "en" = Ok t -> fetch t = Ok segments ->
  translation_pass (d :: after)
  = IO [ETranslate d "en"; EFetch t] (Ok (Some segments)).
Proof.
  intros Ht Hfetch. simpl. rewrite translation_turn.
  unfold translation_calls. rewrite Ht, Hfetch. reflexivity.
Qed.

(** The second loop raises nothing, and every translation it asks for is a
    translation to "en" of a descriptor of the list. *)
Lemma translation_pass_sound (ds : list descriptor) :
  (exists r, result (translation_pass ds) = Ok r)
  /\ forall d lang,
       In (ETranslate d lang) (trace (translation_pass ds)) ->
       In d ds /\ lang = "en".
Proof.
  induction ds as [|x ds [[r Hr] IH]]; simpl.
  - split; [eexists; reflexivity | intros d lang []].
  - rewrite translation_turn.
    destruct (translate x "en") as [t|e] eqn:Ht; cbn.
    + unfold translation_calls. rewrite Ht.
      destruct (fetch t) as [segments|e]; cbn.
      * split; [eexists; reflexivity|].
        intros d lang [Hev|[Hev|[]]]; [|discriminate].
        injection Hev as <- <-. auto.
      * split; [exists r; exact Hr|].
        intros d lang [Hev|[Hev|Hin]]; [|discriminate|].
        -- injection Hev as <- <-. auto.
        -- destruct (IH d lang Hin). auto.
    + unfold translation_calls. rewrite Ht. cbn.
      split; [exists r; exact Hr|].
      intros d lang [Hev|Hin].
      * injection Hev as <- <-. auto.
      * destruct (IH d lang Hin). auto.
Qed.

(** The first loop either runs through the whole list for nothing, or
    stops at the first English descriptor that can be fetched. *)
Lemma english_pass_decide (ds : list descriptor) :
  Forall english_fails ds
  \/ exists before d after segments,
       ds = before ++ d :: after
       /\ Forall english_fails before
       /\ is_english d = true
       /\ fetch d = Ok segments.
Proof.
  induction ds as [|x ds IH].
  - left. constructor.
  - destruct (is_english x) eqn:Heng.
    + destruct (fetch x) as [segments|e] eqn:Hfetch.
      * right. exists [], x, ds, segments. repeat split; auto.
      * assert (Hx : english_fails x) by (intros _; eauto).
        destruct IH as [Hall|(before & d & after & segments & -> & Hb & Hd & Hf)].
        -- left. constructor; assumption.
        -- right. exists (x :: before), d, after, segments.
           repeat split; auto.
    + assert (Hx : english_fails x).
      { intros Hx. rewrite Heng in Hx. discriminate. }
      destruct IH as [Hall|(before & d & after & segments & -> & Hb & Hd & Hf)].
      * left. constructor; assumption.
      * right. exists (x :: before), d, after, segments.
        repeat split; auto.
Qed.

(** [get_transcript] when the first loop stops at [d]. *)
Lemma get_transcript_english (svc : service) (video_id : string)
    (before after : list descriptor) (d : descriptor) (segments : list segment) :
  falsy (Some video_id) = false ->
  api_list svc video_id = Ok (before ++ d :: after) ->
  Forall english_fails before ->
  is_english d = true ->
  fetch d = Ok segments ->
  get_transcript svc (Some video_id)
  = IO (EList video_id :: map EFetch (List.filter is_english before) ++ [EFetch d])
       (Ok (Some segments)).
Proof.
  intros Hvid Hlist Hbefore Heng Hfetch.
  unfold get_transcript. rewrite Hvid.
  unfold call. rewrite Hlist, io_bind_ok.
  rewrite (english_pass_skip before (d :: after) Hbefore).
  rewrite (english_pass_hit d after segments Heng Hfetch).
  cbn [trace result]. rewrite io_bind_ok. cbn.
  rewrite app_nil_r. reflexivity.
Qed.

(** [get_transcript] when the first loop runs through the whole list. *)
Lemma get_transcript_translation (svc : service) (video_id : string)
    (ds : list descriptor) :
  falsy (Some video_id) = false ->
  api_list svc video_id = Ok ds ->
  Forall english_fails ds ->
  exists r,
    result (translation_pass ds) = Ok r
    /\ get_transcript svc (Some video_id)
       = IO (EList video_id :: map EFetch (List.filter is_english ds)
               ++ trace (translation_pass ds))
            (Ok r).
Proof.
  intros Hvid Hlist Hall.
  destruct (translation_pass_sound ds) as [[r Hr] _].
  exists r. split; [exact Hr|].
  unfold get_transcript. rewrite Hvid.
  unfold call. rewrite Hlist, io_bind_ok.
  rewrite (english_pass_exhausted ds Hall), io_bind_ok.
  rewrite <- (io_eta (translation_pass ds)), Hr, io_bind_ok.
  destruct r; cbn; rewrite !app_nil_r; reflexivity.
Qed.

Lemma not_english_fails (ds : list descriptor) :
  Forall (fun x => is_english x = false) ds ->
  Forall english_fails ds /\ List.filter is_english ds = [].
Proof.
  induction 1 as [|x ds Hx _ [IH1 IH2]]; simpl.
  - split; [constructor | reflexivity].
  - rewrite Hx. split; [|exact IH2].
    constructor; [|exact IH1].
    intros Heng. rewrite Hx in Heng. discriminate.
Qed.

Lemma no_translate_in_fetches (ds : list descriptor) :
  Forall (fun ev => is_translate ev = false) (map EFetch ds).
Proof. induction ds; simpl; constructor; auto. Qed.

(** C3. The first descriptor of the list that qualifies as English (its
    code starts with en, or its name holds english in any case) is the one
    that is fetched, and when the fetch returns, its segments are the
    result and the service was asked for nothing else.  Whenever some
    English descriptor can be fetched, no translation is asked for. *)
Theorem english_track_preferred (svc : service) (video_id : string)
    (ds : list descriptor) :
  falsy (Some video_id) = false ->
  api_list svc video_id = Ok ds ->
  (forall before d after segments,
     ds = before ++ d :: after ->
     Forall (fun x => is_english x = false) before ->
     is_english d = true ->
     fetch d = Ok segments ->
     get_transcript svc (Some video_id)
     = IO [EList video_id; EFetch d] (Ok (Some segments)))
  /\ (forall d segments,
        In d ds -> is_english d = true -> fetch d = Ok segments ->
        Forall (fun ev => is_translate ev = false)
               (trace (get_transcript svc (Some video_id)))).
Proof.
  intros Hvid Hlist. split.
  - intros before d after segments -> Hbefore Heng Hfetch.
    destruct (not_english_fails before Hbefore) as [Hfails Hnone].
    rewrite (get_transcript_english svc video_id before after d segments
               Hvid Hlist Hfails Heng Hfetch).
    rewrite Hnone. reflexivity.
  - intros d segments Hin Heng Hfetch.
    destruct (english_pass_decide ds)
      as [Hall|(before & d' & after & segments' & -> & Hb & Hd & Hf)].
    + exfalso. rewrite Forall_forall in Hall.
      apply list_elem_of_In in Hin.
      destruct (Hall d Hin Heng) as [e He]. congruence.
    + rewrite (get_transcript_english svc video_id before after d' segments'
                 Hvid Hlist Hb Hd Hf).
      cbn [trace]. constructor; [reflexivity|].
      apply Forall_app. split; [apply no_translate_in_fetches|].
      constructor; [reflexivity | constructor].
Qed.

(** C4. A translation is asked for only when the first pass went through
    the whole list for nothing; the second pass then takes the descriptors
    in the order of the list, asks each for a translation to "en", and
    returns the segments of the first translation that can be fetched. *)
Theorem translation_after_english_pass (svc : service) (video_id : string)
    (ds : list descriptor) :
  falsy (Some video_id) = false ->
  api_list svc video_id = Ok ds ->
  (forall d lang,
     In (ETranslate d lang) (trace (get_transcript svc (Some video_id))) ->
     Forall english_fails ds /\ In d ds /\ lang = "en")
  /\ (Forall english_fails ds ->
      forall before d after t segments,
        ds = before ++ d :: after ->
        Forall translation_fails before ->
        translate d "en" = Ok t ->
        fetch t = Ok segments ->
        get_transcript svc (Some video_id)
        = IO (EList video_id
                :: map EFetch (List.filter is_english ds)
                ++ flat_map translation_calls before
                ++ [ETranslate d "en"; EFetch t])
             (Ok (Some segments))).
Proof.
  intros Hvid Hlist. split.
  - intros d lang Hev.
    destruct (english_pass_decide ds)
      as [Hall|(before & d' & after & segments' & -> & Hb & Hd & Hf)].
    + split; [exact Hall|].
      destruct (get_transcript_translation svc video_id ds Hvid Hlist Hall)
        as (r & _ & Hrun).
      rewrite Hrun in Hev. cbn [trace] in Hev.
      destruct Hev as [Hev|Hev]; [discriminate|].
      apply in_app_or in Hev. destruct Hev as [Hev|Hev].
      * exfalso.
        pose proof (no_translate_in_fetches (List.filter is_english ds)) as Hno.
        rewrite Forall_forall in Hno.
        apply list_elem_of_In in Hev. specialize (Hno _ Hev). discriminate.
      * apply (proj2 (translation_pass_sound ds)), Hev.
    + exfalso.
      rewrite (get_transcript_english svc video_id before after d' segments'
                 Hvid Hlist Hb Hd Hf) in Hev.
      cbn [trace] in Hev.
      destruct Hev as [Hev|Hev]; [discriminate|].
      apply in_app_or in Hev. destruct Hev as [Hev|[Hev|[]]]; [|discriminate].
      pose proof (no_translate_in_fetches (List.filter is_english before)) as Hno.
      rewrite Forall_forall in Hno.
      apply list_elem_of_In in Hev. specialize (Hno _ Hev). discriminate.
  - intros Hall before d after t segments Hds Hbefore Ht Hfetch.
    destruct (get_transcript_translation svc video_id ds Hvid Hlist Hall)
      as (r & Hr & Hrun).
    rewrite Hrun. subst ds.
    rewrite (translation_pass_skip before (d :: after) Hbefore) in Hr |- *.
    rewrite (translation_pass_hit d t after segments Ht Hfetch) in Hr |- *.
    cbn [trace result] in Hr |- *. injection Hr as <-. reflexivity.
Qed.

(** C5. When fetching an English descriptor raises, the first pass goes on
    with the descriptors that follow: the next English descriptor that can
    be fetched gives the result, and no translation is asked for. *)
Theorem english_fetch_failure_continues (svc : service) (video_id : string)
    (before between after : list descriptor) (failing later : descriptor)
    (e : exn) (segments : list segment) :
  falsy (Some video_id) = false ->
  api_list svc video_id = Ok (before ++ failing :: between ++ later :: after) ->
  Forall english_fails before ->
  is_english failing = true ->
  fetch failing = Raise e ->
  Forall english_fails between ->
  is_english later = true ->
  fetch later = Ok segments ->
  get_transcript svc (Some video_id)
  = IO (EList video_id
          :: map EFetch (List.filter is_english before)
          ++ EFetch failing
          :: map EFetch (List.filter is_english between)
          ++ [EFetch later])
       (Ok (Some segments)).
Proof.
  intros Hvid Hlist Hbefore Heng He Hbetween Hlater Hfetch.
  assert (Hfailing : english_fails failing) by (intros _; eauto).
  assert (Hall : Forall english_fails (before ++ failing :: between)).
  { apply Forall_app. split; [exact Hbefore|]. constructor; assumption. }
  replace (before ++ failing :: between ++ later :: after)
    with ((before ++ failing :: between) ++ later :: after) in Hlist
    by (rewrite <- app_assoc; reflexivity).
  rewrite (get_transcript_english svc video_id _ after later segments
             Hvid Hlist Hall Hlater Hfetch).
  rewrite List.filter_app. simpl. rewrite Heng.
  rewrite map_app. simpl. rewrite <- app_assoc. reflexivity.
Qed.

(** C7. For [None] and for the empty string [get_transcript] returns
    [None] without a call to the service, whatever the service is. *)
Theorem no_identifier_no_service_call (svc : service) :
  get_transcript svc None = IO [] (Ok None)
  /\ get_transcript svc (Some "") = IO [] (Ok None).
Proof. split; reflexivity. Qed.

(** A [try] whose handler returns lets no exception out. *)
Lemma try_io_returns {A} (body : io A) (handler : exn -> io A) :
  (forall e, exists a, result (handler e) = Ok a) ->
  exists a, result (try_io body handler) = Ok a.
Proof.
  intros Hhandler. unfold try_io.
  destruct (result body) as [a|e] eqn:Hbody.
  - exists a. exact Hbody.
  - apply Hhandler.
Qed.

Lemma fetcher_returns (svc : service) (video_id : option string) :
  exists r, result (get_transcript svc video_id) = Ok r.
Proof.
  unfold get_transcript.
  destruct (falsy video_id); [eexists; reflexivity|].
  destruct video_id as [vid|]; [|eexists; reflexivity].
  apply try_io_returns. intros e. exists None. destruct e; reflexivity.
Qed.

(** C6. Neither [get_video_id_from_url] nor [get_transcript] raises: for
    every URL string, every identifier and every behaviour of the service
    and of the library checks, each returns a value, [None] being the one
    sign of failure. *)
Theorem no_exception_reaches_caller :
  (forall (L : stdlib) (youtube_url : string),
     exists r : option string, get_video_id_from_url L youtube_url = Ok r)
  /\ (forall (svc : service) (video_id : option string),
        exists r : option (list segment),
          result (get_transcript svc video_id) = Ok r).
Proof.
  split.
  - intros L youtube_url. apply extractor_returns.
  - intros svc video_id. apply fetcher_returns.
Qed.

(** Witness of C3: a Spanish track, then an English one. *)
Lemma english_track_preferred_witness :
  get_transcript (service_of [track_es; track_en]) (Some "dQw4w9WgXcQ")
  = IO [EList "dQw4w9WgXcQ"; EFetch track_en] (Ok (Some [hello]))
  /\ Forall (fun ev => is_translate ev = false)
        (trace (get_transcript (service_of [track_es; track_en])
                  (Some "dQw4w9WgXcQ"))).
Proof.
  destruct (english_track_preferred (service_of [track_es; track_en])
              "dQw4w9WgXcQ" [track_es; track_en] eq_refl eq_refl)
    as [Hfirst Hnone].
  split.
  - apply (Hfirst [track_es] track_en [] [hello]).
    + reflexivity.
    + repeat constructor.
    + reflexivity.
    + reflexivity.
  - apply (Hnone track_en [hello]).
    + simpl. auto.
    + reflexivity.
    + reflexivity.
Defined.

(** Witness of C4: a French track that cannot be translated, then a
    Spanish one that can. *)
Lemma translation_after_english_pass_witness :
  get_transcript (service_of [track_fr; track_es]) (Some "dQw4w9WgXcQ")
  = IO [EList "dQw4w9WgXcQ"; ETranslate track_fr "en";
        ETranslate track_es "en"; EFetch track_es_translated]
       (Ok (Some [hello]))
  /\ (Forall english_fails [track_fr; track_es]
      /\ In track_es [track_fr; track_es] /\ "en" = "en").
Proof.
  destruct (translation_after_english_pass (service_of [track_fr; track_es])
              "dQw4w9WgXcQ" [track_fr; track_es] eq_refl eq_refl)
    as [Hfirst Hsecond].
  split.
  - apply (Hsecond
             ltac:(repeat constructor; intros Heng; vm_compute in Heng; discriminate)
             [track_fr] track_es [] track_es_translated [hello]).
    + reflexivity.
    + constructor; [|constructor]. left. eexists. reflexivity.
    + reflexivity.
    + reflexivity.
  - apply (Hfirst track_es "en"). vm_compute. auto.
Defined.

(** Witness of C5: a Spanish track, an English one whose fetch raises, and
    an English one that can be fetched. *)
Lemma english_fetch_failure_continues_witness :
  get_transcript (service_of [track_es; track_en_broken; track_en])
    (Some "dQw4w9WgXcQ")
  = IO [EList "dQw4w9WgXcQ"; EFetch track_en_broken; EFetch track_en]
       (Ok (Some [hello])).
Proof.
  apply (english_fetch_failure_continues
           (service_of [track_es; track_en_broken; track_en]) "dQw4w9WgXcQ"
           [track_es] [] [] track_en_broken track_en
           (ServiceError "CouldNotRetrieveTranscript") [hello]).
  - reflexivity.
  - reflexivity.
  - repeat constructor. intros Heng. vm_compute in Heng. discriminate.
  - reflexivity.
  - reflexivity.
  - constructor.
  - reflexivity.
  - reflexivity.
Defined.

(** ** The prompt builder *)

Lemma append_cons (x : ascii) (a b : string) :
  String x a +:+ b = String x (a +:+ b).
Proof. reflexivity. Qed.

Lemma append_assoc (a b c : string) : (a +:+ b) +:+ c = a +:+ (b +:+ c).
Proof.
  induction a as [|x a IH]; [reflexivity|].
  rewrite !append_cons, IH. reflexivity.
Qed.

Lemma append_empty_r (a : string) : a +:+ "" = a.
Proof.
  induction a as [|x a IH]; [reflexivity|].
  rewrite append_cons, IH. reflexivity.
Qed.

(** What the loop appends for a segment is a space and the text of the
    segment; it raises [TypeError] when the segment has no text. *)
Lemma appended_text (trans : segment) :
  appended trans
  = match text_of_segment trans with
    | Some t => Ok (" " +:+ t)
    | None => Raise TypeError
    end.
Proof.
  destruct trans as [text start duration|d|str]; simpl.
  - destruct text; reflexivity.
  - unfold dict_get. destruct (d !! "text") as [[t| |]|]; reflexivity.
  - reflexivity.
Qed.

Lemma prompt_loop_texts (segments : list segment) (texts : list string) :
  Forall2 (fun trans t => text_of_segment trans = Some t) segments texts ->
  forall prompt,
    prompt_loop segments prompt
    = Ok (prompt +:+ join (map (String.append " ") texts)).
Proof.
  induction 1 as [|trans t segments texts Ht _ IH]; intros prompt; simpl.
  - rewrite append_empty_r. reflexivity.
  - rewrite appended_text, Ht. cbn. rewrite IH, append_assoc. reflexivity.
Qed.

Lemma well_formed_texts (segments : list segment) :
  Forall (fun trans => well_formed trans = true) segments ->
  exists texts,
    Forall2 (fun trans t => text_of_segment trans = Some t) segments texts.
Proof.
  induction 1 as [|trans segments Hwf _ [texts IH]].
  - exists []. constructor.
  - unfold well_formed in Hwf.
    destruct (text_of_segment trans) as [t|] eqn:Ht; [|discriminate].
    exists (t :: texts). constructor; assumption.
Qed.

(** C8. The prompt is the header followed, for each segment in order, by a
    space and the text of the segment: its [text] attribute, else the value
    at the key ["text"] of a mapping (the empty string when the key is
    missing), else its textual conversion.  No segment gives the header
    alone; two segments with the texts a and b give the header and " a b". *)
Theorem prompt_is_header_and_texts :
  (forall segments texts,
     Forall2 (fun trans t => text_of_segment trans = Some t) segments texts ->
     generate_prompt_from_transcript (Some segments)
     = Ok (header +:+ join (map (String.append " ") texts)))
  /\ (forall t start duration,
        text_of_segment (Snippet (PStr t) start duration) = Some t)
  /\ (forall d t, d !! "text" = Some (PStr t) ->
        text_of_segment (Mapping d) = Some t)
  /\ (forall d, d !! "text" = None -> text_of_segment (Mapping d) = Some "")
  /\ (forall str, text_of_segment (Other str) = Some str)
  /\ generate_prompt_from_transcript (Some []) = Ok header
  /\ generate_prompt_from_transcript
       (Some [Mapping {["text" := PStr "a"]}; Mapping {["text" := PStr "b"]}])
     = Ok (header +:+ " a b")
  /\ generate_prompt_from_transcript
       (Some [Snippet (PStr "a") (PFloat 0) (PFloat 0);
              Snippet (PStr "b") (PFloat 0) (PFloat 0)])
     = Ok (header +:+ " a b").
Proof.
  repeat apply conj.
  - intros segments texts Htexts.
    apply (prompt_loop_texts segments texts Htexts).
  - reflexivity.
  - intros d t Hd. simpl. rewrite Hd. reflexivity.
  - intros d Hd. simpl. rewrite Hd. reflexivity.
  - reflexivity.
  - reflexivity.
  - vm_compute. reflexivity.
  - vm_compute. reflexivity.
Qed.

(** Witness of C8: an object, a mapping without text and a number. *)
Lemma prompt_is_header_and_texts_witness :
  generate_prompt_from_transcript
    (Some [hello; Mapping no_text; Other "42"])
  = Ok (header +:+ " hello  42").
Proof.
  apply (proj1 prompt_is_header_and_texts
           [hello; Mapping no_text; Other "42"]
           ["hello"; ""; "42"]).
  repeat constructor.
Defined.

(** C9. On well-formed segments [generate_prompt_from_transcript] does not
    raise; a mapping without the key ["text"] is well formed and gives the
    empty text at its place in the prompt. *)
Theorem prompt_builder_does_not_raise :
  (forall segments,
     Forall (fun trans => well_formed trans = true) segments ->
     exists prompt, generate_prompt_from_transcript (Some segments) = Ok prompt)
  /\ (forall d : gmap string pyval,
        d !! "text" = None ->
        well_formed (Mapping d) = true
        /\ appended (Mapping d) = Ok " "
        /\ forall before after texts_before texts_after,
             Forall2 (fun trans t => text_of_segment trans = Some t)
                     before texts_before ->
             Forall2 (fun trans t => text_of_segment trans = Some t)
                     after texts_after ->
             generate_prompt_from_transcript (Some (before ++ Mapping d :: after))
             = Ok (header +:+ join (map (String.append " ")
                                        (texts_before ++ "" :: texts_after)))).
Proof.
  split.
  - intros segments Hwf.
    destruct (well_formed_texts segments Hwf) as [texts Htexts].
    eexists. apply (prompt_loop_texts segments texts Htexts).
  - intros d Hd.
    assert (Ht : text_of_segment (Mapping d) = Some "").
    { simpl. rewrite Hd. reflexivity. }
    split; [unfold well_formed; rewrite Ht; reflexivity|].
    split; [rewrite appended_text, Ht; reflexivity|].
    intros before after texts_before texts_after Hbefore Hafter.
    apply prompt_loop_texts.
    apply Forall2_app; [exact Hbefore|].
    constructor; assumption.
Qed.

(** Witness of C9: a mapping that has a start offset and no text, between
    two segments. *)
Lemma prompt_builder_does_not_raise_witness :
  (exists prompt,
     generate_prompt_from_transcript
       (Some [hello; Mapping no_text; hola]) = Ok prompt)
  /\ generate_prompt_from_transcript
       (Some ([hello] ++ Mapping no_text :: [hola]))
     = Ok (header +:+ " hello  hola").
Proof.
  destruct prompt_builder_does_not_raise as [Hnever Hmissing].
  split.
  - apply Hnever. repeat constructor.
  - destruct (Hmissing no_text ltac:(vm_compute; reflexivity))
      as (_ & _ & Hplace).
    apply (Hplace [hello] [hola] ["hello"] ["hola"]); repeat constructor.
Defined.

(** * Further properties *)

(** ** Strings *)

Lemma split_from_nonempty (sep : string) (s : string) :
  forall skip, split_from sep skip s <> [].
Proof.
  induction s as [|c s IH]; intros skip; cbn [split_from]; [done|].
  destruct skip as [|k]; [|apply IH].
  destruct (startswith sep (String c s)); [done|].
  destruct (split_from sep 0 s); done.
Qed.

Lemma index_split_first (sep s : string) :
  exists piece, index (split sep s) 0 = Ok piece.
Proof.
  unfold split, index.
  destruct (split_from sep 0 s) as [|piece pieces] eqn:E.
  - exfalso. eapply split_from_nonempty, E.
  - exists piece. reflexivity.
Qed.

Lemma startswith_empty (s : string) : startswith "" s = true.
Proof. destruct s; reflexivity. Qed.

Lemma startswith_char (c x : ascii) (s : string) :
  startswith (String c "") (String x s) = Ascii.eqb x c.
Proof.
  unfold startswith. simpl.
  destruct (ascii_dec c x) as [->|Hne].
  - rewrite Ascii.eqb_refl. destruct s; reflexivity.
  - symmetry. apply Ascii.eqb_neq. congruence.
Qed.

Lemma startswith_cons (x : ascii) (a s : string) :
  startswith (String x a) (String x s) = startswith a s.
Proof.
  unfold startswith. simpl.
  destruct (ascii_dec x x) as [_|Hne]; [reflexivity | congruence].
Qed.

(** The first piece of a split at a character: the text before the first
    occurrence of the character. *)
Lemma split_char_first (c : ascii) (s : string) :
  exists piece pieces,
    split (String c "") s = piece :: pieces
    /\ has_char c piece = false
    /\ startswith piece s = true
    /\ (piece = "" <-> s = "" \/ startswith (String c "") s = true).
Proof.
  unfold split. induction s as [|x s (piece & pieces & Hsplit & Hno & Hpre & Hempty)].
  - exists "", []. repeat split; auto.
  - cbn [split_from]. rewrite startswith_char.
    destruct (Ascii.eqb x c) eqn:Hx.
    + exists "", (split_from (String c "") (String.length (String c "") - 1) s).
      repeat split; auto.
    + rewrite Hsplit. exists (String x piece), pieces.
      split; [reflexivity|].
      split; [simpl; rewrite Hx; exact Hno|].
      split; [rewrite startswith_cons; exact Hpre|].
      split; [discriminate | intros [H|H]; discriminate].
Qed.

(** A string without a character is left whole by a split at it. *)
Lemma split_char_absent (c : ascii) (s : string) :
  has_char c s = false -> split (String c "") s = [s].
Proof.
  unfold split. induction s as [|x s IH]; [reflexivity|].
  simpl has_char. intros H. apply orb_false_iff in H. destruct H as [Hx Hs].
  cbn [split_from]. rewrite startswith_char, Hx, (IH Hs). reflexivity.
Qed.

(** The pieces of a split hold no character that the string does not
    hold. *)
Lemma split_from_pieces (c : ascii) (sep s : string) :
  has_char c s = false ->
  forall skip, Forall (fun piece => has_char c piece = false) (split_from sep skip s).
Proof.
  induction s as [|x s IH]; intros H skip.
  - repeat constructor.
  - simpl in H. apply orb_false_iff in H. destruct H as [Hx Hs].
    cbn [split_from]. destruct skip as [|k]; [|apply IH, Hs].
    destruct (startswith sep (String x s)).
    + constructor; [reflexivity | apply IH, Hs].
    + specialize (IH Hs 0).
      destruct (split_from sep 0 s) as [|piece pieces].
      * repeat constructor. simpl. rewrite Hx. reflexivity.
      * inversion IH; subst. constructor; [|assumption].
        simpl. rewrite Hx. assumption.
Qed.

(** A string that holds the separator splits into two pieces at least. *)
Lemma split_contains (sep s : string) :
  sep <> "" -> contains sep s = true ->
  exists before after rest, split sep s = before :: after :: rest.
Proof.
  intros Hsep. unfold split. induction s as [|x s IH].
  - destruct sep; [congruence | discriminate].
  - change (contains sep (String x s))
      with (startswith sep (String x s) || contains sep s).
    intros H. cbn [split_from].
    destruct (startswith sep (String x s)) eqn:Hstart.
    + destruct (split_from sep (String.length sep - 1) s) as [|after rest] eqn:E.
      * exfalso. eapply split_from_nonempty, E.
      * eauto.
    + destruct (IH H) as (before & after & rest & ->). eauto.
Qed.

Lemma all_chars_lstrip (chars : ascii -> bool) (s : string) :
  all_chars chars (lstrip chars s) = all_chars chars s.
Proof.
  induction s as [|x s IH]; [reflexivity|].
  simpl. destruct (chars x) eqn:Hx; [exact IH|].
  simpl. rewrite Hx. reflexivity.
Qed.

Lemma rstrip_empty (chars : ascii -> bool) (s : string) :
  rstrip chars s = "" <-> all_chars chars s = true.
Proof.
  induction s as [|x s IH]; simpl; [tauto|].
  destruct (rstrip chars s) eqn:E.
  - destruct (chars x); simpl.
    + tauto.
    + split; discriminate.
  - split; [discriminate|].
    intros H. apply andb_true_iff in H. destruct H as [_ H].
    apply IH in H. discriminate.
Qed.

Lemma rstrip_cons (chars : ascii -> bool) (x : ascii) (s : string) :
  chars x = false -> rstrip chars (String x s) = String x (rstrip chars s).
Proof. intros Hx. simpl. rewrite Hx. destruct (rstrip chars s); reflexivity. Qed.

(** A stripped string is empty, or starts with a character that is not
    stripped; it is empty when every character is stripped. *)
Lemma strip_head (chars : ascii -> bool) (s : string) :
  (strip chars s = "" /\ all_chars chars s = true)
  \/ (exists x t, strip chars s = String x t /\ chars x = false
                  /\ all_chars chars s = false).
Proof.
  unfold strip. rewrite <- (all_chars_lstrip chars s).
  induction s as [|x s IH]; [left; split; reflexivity|].
  simpl lstrip. destruct (chars x) eqn:Hx; [exact IH|].
  right. exists x, (rstrip chars s).
  split; [apply rstrip_cons, Hx|]. split; [exact Hx|].
  simpl. rewrite Hx. reflexivity.
Qed.

(** ** [urlparse] *)

Lemma split_once_before (c : ascii) (s a b : string) :
  split_once c s = Some (a, b) -> has_char c a = false.
Proof.
  revert a b. induction s as [|x s IH]; intros a b; simpl; [discriminate|].
  destruct (Ascii.eqb x c) eqn:Hx.
  - intros [= <- <-]. reflexivity.
  - destruct (split_once c s) as [[a' b']|]; [|discriminate].
    intros [= <- <-]. simpl. rewrite Hx. eapply IH. reflexivity.
Qed.

Lemma split_once_none (c : ascii) (s : string) :
  split_once c s = None -> has_char c s = false.
Proof.
  induction s as [|x s IH]; simpl; [reflexivity|].
  destruct (Ascii.eqb x c); [discriminate|].
  destruct (split_once c s) as [[a b]|]; [discriminate|].
  intros _. apply IH. reflexivity.
Qed.

Lemma has_char_take (c : ascii) (n : nat) (s : string) :
  has_char c s = false -> has_char c (take_str n s) = false.
Proof.
  revert s. induction n as [|n IH]; intros [|x s]; simpl; auto.
  intros H. apply orb_false_iff in H. destruct H as [-> H].
  apply IH, H.
Qed.

Lemma splitparams_path (c : ascii) (url : string) :
  has_char c url = false -> has_char c (fst (splitparams url)) = false.
Proof.
  intros H. unfold splitparams.
  destruct (has_char "/" url).
  - destruct (rfind_char "/" url) as [r|]; [|exact H].
    destruct (find_from ";" r url); [apply has_char_take, H | exact H].
  - destruct (find_char ";" url); [apply has_char_take, H | exact H].
Qed.

Lemma check_brackets_raises (L : stdlib) (netloc : string) (e : exn) :
  check_brackets L netloc = Raise e -> e = ValueError.
Proof.
  unfold check_brackets.
  repeat match goal with
         | |- (if ?b then _ else _) = _ -> _ => destruct b
         end; congruence.
Qed.

Lemma checknetloc_raises (L : stdlib) (netloc : string) (e : exn) :
  checknetloc L netloc = Raise e -> e = ValueError.
Proof.
  unfold checknetloc.
  repeat match goal with
         | |- (if ?b then _ else _) = _ -> _ => destruct b
         end; congruence.
Qed.

(** What [urlsplit] returns or raises: its path holds no question mark,
    and it raises nothing but [ValueError]. *)
Lemma urlsplit_sound (L : stdlib) (url : string) :
  match urlsplit L url with
  | Ok (_, _, path, _, _) => has_char "?" path = false
  | Raise e => e = ValueError
  end.
Proof.
  unfold urlsplit.
  destruct (split_scheme (remove_unsafe (lstrip c0_control_or_space url)))
    as [scheme rest].
  set (located :=
         if String.eqb (take_str 2 rest) "//"
         then let '(netloc, url0) := splitnetloc rest 2 in
              check_brackets L netloc ≫= λ _ : (), mret (netloc, url0)
         else mret ("", rest)).
  assert (Hloc : match located with
                 | Ok _ => True
                 | Raise e => e = ValueError
                 end).
  { subst located. destruct (String.eqb (take_str 2 rest) "//"); [|exact I].
    destruct (splitnetloc rest 2) as [netloc url0].
    destruct (check_brackets L netloc) as [[]|e] eqn:E; [exact I|].
    apply (check_brackets_raises L netloc e E). }
  destruct located as [[netloc url0]|e]; [|exact Hloc].
  cbn.
  destruct (split_once "#" url0) as [[u f]|];
    destruct (split_once "?" _) as [[u' q]|] eqn:Hq;
    destruct (checknetloc L netloc) as [[]|e] eqn:E; cbn;
    try (apply (checknetloc_raises L netloc e E));
    try (apply (split_once_before _ _ _ _ Hq));
    try (apply (split_once_none _ _ Hq)).
Qed.

Lemma urlparse_sound (L : stdlib) (url : string) :
  match urlparse L url with
  | Ok parsed_url => has_char "?" (path parsed_url) = false
  | Raise e => e = ValueError
  end.
Proof.
  unfold urlparse. pose proof (urlsplit_sound L url) as H.
  destruct (urlsplit L url) as [[[[[scheme netloc] u] query] fragment]|e];
    [|exact H].
  cbn.
  destruct (bool_decide (scheme ∈ uses_params) && has_char ";" u).
  - pose proof (splitparams_path "?" u H) as Hp.
    destruct (splitparams u) as [u' params]. exact Hp.
  - exact H.
Qed.

(** ** The regex fallback, continued *)

Lemma search_found_at (pattern : regex) (s : string) (mo : match_object) :
  search pattern s = Some mo ->
  exists before rest,
    s = before +:+ rest
    /\ m pattern rest None (fun _ g => Some {| group1 := g |}) = Some mo.
Proof.
  induction s as [|c s IH]; simpl.
  - destruct (m pattern "" None _) eqn:E; [|discriminate].
    intros [= <-]. exists "", "". auto.
  - destruct (m pattern (String c s) None _) eqn:E.
    + intros [= <-]. exists "", (String c s). auto.
    + intros H. destruct (IH H) as (before & rest & -> & Hm).
      exists (String c before), rest. auto.
Qed.

Lemma startswith_split (lit s : string) :
  startswith lit s = true -> s = lit +:+ drop_str (String.length lit) s.
Proof.
  revert s. induction lit as [|c lit IH]; intros s; [reflexivity|].
  destruct s as [|x s]; [discriminate|].
  unfold startswith in *. simpl.
  destruct (ascii_dec c x) as [->|]; [|discriminate].
  intros H. rewrite append_cons, <- (IH s H). reflexivity.
Qed.

Lemma take_drop_str (n : nat) (s : string) : s = take_str n s +:+ drop_str n s.
Proof.
  revert s. induction n as [|n IH]; intros [|x s]; try reflexivity.
  simpl. rewrite append_cons, <- IH. reflexivity.
Qed.

(** Where a pattern made of a literal and eleven identifier characters
    matches, the text is the literal, the eleven characters and a rest. *)
Lemma prefixed_match_text (lit s : string) (mo : match_object) :
  lit <> "" ->
  m (Cat (Str lit) (Group1 (Rep 11 (Class id_char)))) s None
    (fun _ g => Some {| group1 := g |}) = Some mo ->
  exists id rest,
    s = lit +:+ id +:+ rest
    /\ String.length id = 11
    /\ all_chars id_char id = true.
Proof.
  intros Hlit.
  change (m (Cat (Str lit) (Group1 (Rep 11 (Class id_char)))) s None
            (fun _ g => Some {| group1 := g |}))
    with (m (Str lit) s None
            (fun s' g' => m (Group1 (Rep 11 (Class id_char))) s' g'
                            (fun _ g => Some {| group1 := g |}))).
  rewrite (m_str lit Hlit).
  destruct (startswith lit s) eqn:Hstart; [|discriminate].
  rewrite m_identifier.
  destruct (eleven _) eqn:He; [|discriminate].
  intros _.
  exists (take_str 11 (drop_str (String.length lit) s)),
         (drop_str 11 (drop_str (String.length lit) s)).
  split; [|apply eleven_take, He].
  rewrite <- take_drop_str. apply startswith_split, Hstart.
Qed.

(** Where the second or the third pattern finds something, the first one
    does too. *)
Lemma generic_subsumes (lit_before prefix youtube_url : string) (mo : match_object) :
  prefix = "/" \/ prefix = "v=" ->
  lit_before +:+ prefix <> "" ->
  search (Cat (Str (lit_before +:+ prefix)) (Group1 (Rep 11 (Class id_char))))
         youtube_url = Some mo ->
  exists mo', search pattern_generic youtube_url = Some mo'.
Proof.
  intros Hprefix Hlit Hsearch.
  destruct (search_found_at _ _ _ Hsearch) as (before & s & -> & Hm).
  destruct (prefixed_match_text _ _ _ Hlit Hm) as (id & rest & -> & Hlen & Hall).
  destruct (generic_matches_at id rest Hlen Hall) as [Hslash Hv].
  rewrite (append_assoc lit_before prefix), <- (append_assoc before lit_before).
  destruct Hprefix as [-> | ->]; eapply search_finds; eassumption.
Qed.

(** X1. The second and the third pattern of the fallback never decide:
    the list of three patterns gives what the first pattern alone gives. *)
Theorem later_patterns_never_decide (youtube_url : string) :
  regex_fallback patterns youtube_url
  = regex_fallback [pattern_generic] youtube_url.
Proof.
  unfold patterns. cbn [regex_fallback].
  destruct (search pattern_generic youtube_url) as [mo|] eqn:E1; [reflexivity|].
  destruct (search pattern_embed youtube_url) as [mo|] eqn:E2.
  { destruct (generic_subsumes "embed" "/" youtube_url mo) as [mo' Hmo'];
      [auto | discriminate | exact E2 | congruence]. }
  destruct (search pattern_watch youtube_url) as [mo|] eqn:E3.
  { destruct (generic_subsumes "watch?" "v=" youtube_url mo) as [mo' Hmo'];
      [auto | discriminate | exact E3 | congruence]. }
  reflexivity.
Qed.

(** ** The identifier extractor, continued *)

Section ExtractorBranches.

Variable L : stdlib.

(** The body of the [try] once the watch branch has not returned. *)
Lemma structured_parsing_past_watch (youtube_url : string) (parsed_url : ParseResult) :
  urlparse L youtube_url = Ok parsed_url ->
  (contains "youtube.com" (netloc parsed_url) = true ->
   parse_qs L (query parsed_url) !! "v" = None) ->
  structured_parsing L youtube_url
  = if contains "youtu.be" (netloc parsed_url) then
      video_id ← index (split "/" (strip (Ascii.eqb "/") (path parsed_url))) 0;
      mret (Some video_id)
    else if contains "youtube.com" (netloc parsed_url)
            && contains "/embed/" (path parsed_url) then
      after ← index (split "/embed/" (path parsed_url)) 1;
      segment ← index (split "/" after) 0;
      video_id ← index (split "?" segment) 0;
      mret (Some video_id)
    else mret None.
Proof.
  intros Hparse Hwatch. unfold structured_parsing. rewrite Hparse.
  unfold mbind at 1. unfold outcome_bind at 1.
  destruct (contains "youtube.com" (netloc parsed_url)).
  - rewrite (Hwatch eq_refl). reflexivity.
  - reflexivity.
Qed.

(** The body of the [try] when the watch branch returns. *)
Lemma structured_parsing_watch (youtube_url : string) (parsed_url : ParseResult)
    (values : list string) :
  urlparse L youtube_url = Ok parsed_url ->
  contains "youtube.com" (netloc parsed_url) = true ->
  parse_qs L (query parsed_url) !! "v" = Some values ->
  exists video_id rest,
    values = video_id :: rest
    /\ structured_parsing L youtube_url = Ok (Some video_id).
Proof.
  intros Hparse Hhost Hv.
  destruct values as [|video_id rest].
  - exfalso. eapply parse_qs_values_nonempty; [exact Hv | reflexivity].
  - exists video_id, rest. split; [reflexivity|].
    unfold structured_parsing. rewrite Hparse. cbn. rewrite Hhost, Hv. reflexivity.
Qed.

(** The short-link branch. *)
Lemma short_link_branch (parsed_url : ParseResult) :
  exists video_id,
    (video_id ← index (split "/" (strip (Ascii.eqb "/") (path parsed_url))) 0;
     mret (Some video_id)) = Ok (Some video_id)
    /\ has_char "/" video_id = false
    /\ startswith video_id (strip (Ascii.eqb "/") (path parsed_url)) = true
    /\ (video_id = "" <-> all_chars (Ascii.eqb "/") (path parsed_url) = true).
Proof.
  destruct (split_char_first "/" (strip (Ascii.eqb "/") (path parsed_url)))
    as (piece & pieces & Hsplit & Hno & Hpre & Hempty).
  exists piece. change (String "/" "") with "/" in Hsplit.
  rewrite Hsplit. split; [reflexivity|]. split; [exact Hno|]. split; [exact Hpre|].
  rewrite Hempty.
  destruct (strip_head (Ascii.eqb "/") (path parsed_url))
    as [[Hstrip Hall]|(x & t & Hstrip & Hx & Hall)]; rewrite Hstrip, Hall.
  - tauto.
  - rewrite startswith_char, Ascii.eqb_sym, Hx.
    split; [intros [H|H]; discriminate | discriminate].
Qed.

(** The embed branch, on a path without a question mark. *)
Lemma embed_branch (p : string) :
  has_char "?" p = false ->
  contains "/embed/" p = true ->
  exists before after rest video_id pieces,
    split "/embed/" p = before :: after :: rest
    /\ split "/" after = video_id :: pieces
    /\ (after ← index (split "/embed/" p) 1;
        segment ← index (split "/" after) 0;
        video_id ← index (split "?" segment) 0;
        mret (Some video_id)) = Ok (Some video_id)
    /\ has_char "/" video_id = false
    /\ has_char "?" video_id = false.
Proof.
  intros Hquery Hembed.
  destruct (split_contains "/embed/" p) as (before & after & rest & Hsplit);
    [discriminate | exact Hembed |].
  pose proof (split_from_pieces "?" "/embed/" p Hquery 0) as Hpieces.
  fold (split "/embed/" p) in Hpieces. rewrite Hsplit in Hpieces.
  assert (Hafter : has_char "?" after = false).
  { inversion Hpieces as [|? ? _ Htail]; subst.
    inversion Htail; subst. assumption. }
  destruct (split_char_first "/" after)
    as (piece & pieces & Hsplit2 & Hno & _ & _).
  change (String "/" "") with "/" in Hsplit2.
  pose proof (split_from_pieces "?" "/" after Hafter 0) as Hpieces2.
  fold (split "/" after) in Hpieces2. rewrite Hsplit2 in Hpieces2.
  assert (Hpiece : has_char "?" piece = false).
  { inversion Hpieces2; subst. assumption. }
  exists before, after, rest, piece, pieces.
  split; [exact Hsplit|]. split; [exact Hsplit2|].
  split; [|split; assumption].
  rewrite Hsplit. cbn. rewrite Hsplit2. cbn.
  pose proof (split_char_absent "?" piece Hpiece) as Hsplit3.
  change (String "?" "") with "?" in Hsplit3.
  rewrite Hsplit3. reflexivity.
Qed.

(** X2. The indexing in the three structured branches never raises: when
    [urlparse] returns, the body of the [try] returns, and the one
    exception the [except] clause ever meets is the [ValueError] of
    [urlparse]. *)
Theorem structured_parsing_raises_only_in_urlparse (youtube_url : string) :
  (forall parsed_url,
     urlparse L youtube_url = Ok parsed_url ->
     exists r, structured_parsing L youtube_url = Ok r)
  /\ (forall e,
        structured_parsing L youtube_url = Raise e ->
        e = ValueError /\ urlparse L youtube_url = Raise ValueError).
Proof.
  assert (Hreturns : forall parsed_url,
             urlparse L youtube_url = Ok parsed_url ->
             exists r, structured_parsing L youtube_url = Ok r).
  { intros parsed_url Hparse.
    destruct (contains "youtube.com" (netloc parsed_url)) eqn:Hhost.
    - destruct (parse_qs L (query parsed_url) !! "v") as [values|] eqn:Hv.
      + destruct (structured_parsing_watch _ _ _ Hparse Hhost Hv)
          as (video_id & rest & _ & ->). eauto.
      + rewrite (structured_parsing_past_watch _ _ Hparse (fun _ => Hv)).
        destruct (contains "youtu.be" (netloc parsed_url)).
        * destruct (short_link_branch parsed_url) as (video_id & -> & _). eauto.
        * rewrite Hhost. cbn [andb].
          destruct (contains "/embed/" (path parsed_url)) eqn:Hembed; [|eauto].
          pose proof (urlparse_sound L youtube_url) as Hsound.
          rewrite Hparse in Hsound.
          destruct (embed_branch _ Hsound Hembed)
            as (? & ? & ? & video_id & ? & _ & _ & -> & _). eauto.
    - assert (Hwatch : contains "youtube.com" (netloc parsed_url) = true ->
                       parse_qs L (query parsed_url) !! "v" = None)
        by (rewrite Hhost; discriminate).
      rewrite (structured_parsing_past_watch _ _ Hparse Hwatch).
      destruct (contains "youtu.be" (netloc parsed_url)).
      + destruct (short_link_branch parsed_url) as (video_id & -> & _). eauto.
      + rewrite Hhost. eauto. }
  split; [exact Hreturns|].
  intros e Hraise.
  pose proof (urlparse_sound L youtube_url) as Hsound.
  destruct (urlparse L youtube_url) as [parsed_url|e'] eqn:Hparse.
  - destruct (Hreturns parsed_url eq_refl) as [r Hr]. congruence.
  - subst e'. unfold structured_parsing in Hraise. rewrite Hparse in Hraise.
    cbn in Hraise. injection Hraise as <-. auto.
Qed.

Lemma get_video_id_structured (youtube_url video_id : string) :
  structured_parsing L youtube_url = Ok (Some video_id) ->
  get_video_id_from_url L youtube_url = Ok (Some video_id).
Proof. intros H. unfold get_video_id_from_url. rewrite H. reflexivity. Qed.

Lemma get_video_id_fallback (youtube_url : string) (video_id : string) :
  try_except (structured_parsing L youtube_url) (fun _ => mret None) = Ok None ->
  get_video_id_from_url L youtube_url = Ok (Some video_id) ->
  String.length video_id = 11 /\ all_chars id_char video_id = true.
Proof.
  intros Hstructured. unfold get_video_id_from_url. rewrite Hstructured.
  unfold mbind, outcome_bind.
  destruct (regex_fallback patterns youtube_url) as [g|] eqn:Hfb; [|discriminate].
  destruct (fallback_captures _ _ Hfb) as (vid & -> & Hvid).
  intros [= <-]. exact Hvid.
Qed.

(** X3. On a short link that the watch branch leaves alone, the result is
    the first segment of the path stripped of its slashes: it holds no
    slash, the stripped path starts with it, and it is empty exactly when
    the path is made of slashes only. *)
Theorem short_link_first_segment (youtube_url : string) (parsed_url : ParseResult) :
  urlparse L youtube_url = Ok parsed_url ->
  (contains "youtube.com" (netloc parsed_url) = true ->
   parse_qs L (query parsed_url) !! "v" = None) ->
  contains "youtu.be" (netloc parsed_url) = true ->
  exists video_id,
    get_video_id_from_url L youtube_url = Ok (Some video_id)
    /\ has_char "/" video_id = false
    /\ startswith video_id (strip (Ascii.eqb "/") (path parsed_url)) = true
    /\ (video_id = "" <-> all_chars (Ascii.eqb "/") (path parsed_url) = true).
Proof.
  intros Hparse Hwatch Hshort.
  destruct (short_link_branch parsed_url) as (video_id & Hbranch & Hrest).
  exists video_id. split; [|exact Hrest].
  apply get_video_id_structured.
  rewrite (structured_parsing_past_watch _ _ Hparse Hwatch), Hshort.
  exact Hbranch.
Qed.

(** X4. On an embed URL the result is the text between the first /embed/
    of the path and the next slash; it holds no slash and no question mark,
    and the split at the question mark changes nothing, since the path
    that [urlparse] returns has none. *)
Theorem embed_identifier (youtube_url : string) (parsed_url : ParseResult) :
  urlparse L youtube_url = Ok parsed_url ->
  contains "youtube.com" (netloc parsed_url) = true ->
  parse_qs L (query parsed_url) !! "v" = None ->
  contains "youtu.be" (netloc parsed_url) = false ->
  contains "/embed/" (path parsed_url) = true ->
  exists before after rest video_id pieces,
    split "/embed/" (path parsed_url) = before :: after :: rest
    /\ split "/" after = video_id :: pieces
    /\ split "?" video_id = [video_id]
    /\ get_video_id_from_url L youtube_url = Ok (Some video_id)
    /\ has_char "/" video_id = false.
Proof.
  intros Hparse Hhost Hv Hshort Hembed.
  pose proof (urlparse_sound L youtube_url) as Hsound.
  rewrite Hparse in Hsound.
  destruct (embed_branch _ Hsound Hembed)
    as (before & after & rest & video_id & pieces & H1 & H2 & H3 & H4 & H5).
  exists before, after, rest, video_id, pieces.
  split; [exact H1|]. split; [exact H2|].
  split; [apply (split_char_absent "?" video_id H5)|].
  split; [|exact H4].
  apply get_video_id_structured.
  rewrite (structured_parsing_past_watch _ _ Hparse (fun _ => Hv)), Hshort, Hhost, Hembed.
  exact H3.
Qed.

(** X5. When [urlparse] raises, or the host holds neither youtube.com nor
    youtu.be, an identifier that is returned comes from the regex fallback:
    it has eleven characters, all of them identifier characters. *)
Theorem unrecognised_host_identifier (youtube_url video_id : string) :
  match urlparse L youtube_url with
  | Ok parsed_url =>
      contains "youtube.com" (netloc parsed_url) = false
      /\ contains "youtu.be" (netloc parsed_url) = false
  | Raise _ => True
  end ->
  get_video_id_from_url L youtube_url = Ok (Some video_id) ->
  String.length video_id = 11 /\ all_chars id_char video_id = true.
Proof.
  intros Hhost. apply get_video_id_fallback.
  destruct (urlparse L youtube_url) as [parsed_url|e] eqn:Hparse.
  - destruct Hhost as [Hyt Hshort].
    assert (Hwatch : contains "youtube.com" (netloc parsed_url) = true ->
                     parse_qs L (query parsed_url) !! "v" = None)
      by (rewrite Hyt; discriminate).
    rewrite (structured_parsing_past_watch _ _ Hparse Hwatch), Hshort, Hyt.
    reflexivity.
  - unfold structured_parsing. rewrite Hparse. reflexivity.
Qed.

(** Values that [parse_qs] reports are not blank, when percent-decoding
    does not make a string empty. *)
Lemma parse_fields_not_blank (fields : list string) :
  (forall s, s <> "" -> unquote_escapes L s <> "") ->
  Forall (fun nv : string * string => snd nv <> "") (parse_fields L fields).
Proof.
  intros Hunquote. induction fields as [|name_value rest IH]; simpl.
  - constructor.
  - destruct (String.eqb name_value ""); [exact IH|].
    destruct (split_once "=" name_value) as [[n v]|]; [|exact IH].
    destruct v as [|c v]; [exact IH|].
    cbn [String.length Nat.eqb]. constructor; [|exact IH].
    cbn [snd replace_char]. unfold unquote.
    destruct (has_char "%" _); [apply Hunquote|]; discriminate.
Qed.

Lemma parse_fold_not_blank (pairs : list (string * string)) :
  Forall (fun nv : string * string => snd nv <> "") pairs ->
  forall acc : gmap string (list string),
    (forall n vs, acc !! n = Some vs -> Forall (fun v => v <> "") vs) ->
    forall n vs,
      fold_left
        (fun parsed_result '(name, value) =>
           match parsed_result !! name with
           | Some values => <[name := values ++ [value]]> parsed_result
           | None => <[name := [value]]> parsed_result
           end) pairs acc !! n = Some vs ->
      Forall (fun v => v <> "") vs.
Proof.
  induction 1 as [|[name value] pairs Hvalue _ IH]; intros acc Hacc n vs; simpl.
  - apply Hacc.
  - apply IH. clear n vs. intros n vs. simpl in Hvalue.
    destruct (acc !! name) as [values|] eqn:Hname.
    + rewrite lookup_insert_Some. intros [[_ <-]|[_ Hn]].
      * apply Forall_app. split; [eapply Hacc, Hname|]. repeat constructor. exact Hvalue.
      * eapply Hacc, Hn.
    + rewrite lookup_insert_Some. intros [[_ <-]|[_ Hn]].
      * repeat constructor. exact Hvalue.
      * eapply Hacc, Hn.
Qed.

Lemma parse_qs_not_blank (qs name : string) (values : list string) :
  (forall s, s <> "" -> unquote_escapes L s <> "") ->
  parse_qs L qs !! name = Some values ->
  Forall (fun v => v <> "") values.
Proof.
  intros Hunquote. unfold parse_qs. apply parse_fold_not_blank.
  - unfold parse_qsl. destruct (String.eqb qs ""); [constructor|].
    apply parse_fields_not_blank, Hunquote.
  - intros n vs. rewrite lookup_empty. discriminate.
Qed.

(** X6. The empty string is returned by the short-link branch and by the
    embed branch only: never by the watch branch, whose value [parse_qs]
    would have dropped, nor by the regex fallback.  Percent-decoding is
    taken not to turn a string into the empty one. *)
Theorem empty_identifier_only_from_path (youtube_url : string) :
  (forall s, s <> "" -> unquote_escapes L s <> "") ->
  get_video_id_from_url L youtube_url = Ok (Some "") ->
  exists parsed_url,
    urlparse L youtube_url = Ok parsed_url
    /\ ((contains "youtu.be" (netloc parsed_url) = true
         /\ all_chars (Ascii.eqb "/") (path parsed_url) = true)
        \/ (contains "youtu.be" (netloc parsed_url) = false
            /\ contains "youtube.com" (netloc parsed_url) = true
            /\ contains "/embed/" (path parsed_url) = true)).
Proof.
  intros Hunquote Hempty.
  destruct (try_except (structured_parsing L youtube_url) (fun _ => mret None))
    as [[video_id|]|e] eqn:Htry.
  2: { destruct (get_video_id_fallback _ _ Htry Hempty) as [Hlen _]. discriminate. }
  2: { destruct (structured_parsing L youtube_url); discriminate. }
  assert (Hstructured : structured_parsing L youtube_url = Ok (Some "")).
  { destruct (structured_parsing L youtube_url) as [r|e] eqn:E; [|discriminate].
    injection Htry as ->.
    rewrite (get_video_id_structured _ _ E) in Hempty. exact Hempty. }
  clear Htry Hempty.
  destruct (urlparse L youtube_url) as [parsed_url|e] eqn:Hparse.
  2: { unfold structured_parsing in Hstructured. rewrite Hparse in Hstructured.
       discriminate. }
  exists parsed_url. split; [reflexivity|].
  assert (Hwatch : contains "youtube.com" (netloc parsed_url) = true ->
                   parse_qs L (query parsed_url) !! "v" = None).
  { intros Hhost.
    destruct (parse_qs L (query parsed_url) !! "v") as [values|] eqn:Hv;
      [|reflexivity].
    exfalso.
    destruct (structured_parsing_watch _ _ _ Hparse Hhost Hv)
      as (value & rest & -> & Hret).
    pose proof (parse_qs_not_blank _ _ _ Hunquote Hv) as Hblank.
    inversion Hblank; subst. congruence. }
  rewrite (structured_parsing_past_watch _ _ Hparse Hwatch) in Hstructured.
  destruct (contains "youtu.be" (netloc parsed_url)) eqn:Hshort.
  - left. split; [reflexivity|].
    destruct (short_link_branch parsed_url) as (value & Hbranch & _ & _ & Hiff).
    rewrite Hbranch in Hstructured. apply Hiff. congruence.
  - right. split; [reflexivity|].
    destruct (contains "youtube.com" (netloc parsed_url)); [|discriminate].
    destruct (contains "/embed/" (path parsed_url)); [auto | discriminate].
Qed.

End ExtractorBranches.

(** Witness of X3: a short link with a second segment and a query. *)
Lemma short_link_first_segment_witness :
  exists video_id,
    get_video_id_from_url plain_stdlib "https://youtu.be/dQw4w9WgXcQ/x?t=10"
    = Ok (Some video_id)
    /\ has_char "/" video_id = false
    /\ startswith video_id (strip (Ascii.eqb "/") "/dQw4w9WgXcQ/x") = true
    /\ (video_id = "" <-> all_chars (Ascii.eqb "/") "/dQw4w9WgXcQ/x" = true).
Proof.
  apply (short_link_first_segment plain_stdlib
           "https://youtu.be/dQw4w9WgXcQ/x?t=10"
           {| scheme := "https"; netloc := "youtu.be"; path := "/dQw4w9WgXcQ/x";
              params := ""; query := "t=10"; fragment := "" |}).
  - vm_compute. reflexivity.
  - intros Hhost. vm_compute in Hhost. discriminate.
  - vm_compute. reflexivity.
Defined.

(** Witness of X4: an embed URL with a further segment and a query. *)
Lemma embed_identifier_witness :
  exists before after rest video_id pieces,
    split "/embed/" "/embed/dQw4w9WgXcQ/more" = before :: after :: rest
    /\ split "/" after = video_id :: pieces
    /\ split "?" video_id = [video_id]
    /\ get_video_id_from_url plain_stdlib
         "https://www.youtube.com/embed/dQw4w9WgXcQ/more?start=5"
       = Ok (Some video_id)
    /\ has_char "/" video_id = false.
Proof.
  apply (embed_identifier plain_stdlib
           "https://www.youtube.com/embed/dQw4w9WgXcQ/more?start=5"
           {| scheme := "https"; netloc := "www.youtube.com";
              path := "/embed/dQw4w9WgXcQ/more";
              params := ""; query := "start=5"; fragment := "" |}).
  - vm_compute. reflexivity.
  - vm_compute. reflexivity.
  - vm_compute. reflexivity.
  - vm_compute. reflexivity.
  - vm_compute. reflexivity.
Defined.

(** Witness of X2: an embed URL with nothing after the marker, and a
    URL with an unmatched bracket. *)
Lemma structured_parsing_raises_only_in_urlparse_witness :
  (exists r, structured_parsing plain_stdlib "https://www.youtube.com/embed/" = Ok r)
  /\ (ValueError = ValueError
      /\ urlparse plain_stdlib "http://[youtu.be/dQw4w9WgXcQ" = Raise ValueError).
Proof.
  split.
  - apply (proj1 (structured_parsing_raises_only_in_urlparse plain_stdlib
                    "https://www.youtube.com/embed/")
             {| scheme := "https"; netloc := "www.youtube.com"; path := "/embed/";
                params := ""; query := ""; fragment := "" |}).
    vm_compute. reflexivity.
  - apply (proj2 (structured_parsing_raises_only_in_urlparse plain_stdlib
                    "http://[youtu.be/dQw4w9WgXcQ") ValueError).
    vm_compute. reflexivity.
Defined.

(** Witness of X5: a foreign host, with a short [v] in the query. *)
Lemma unrecognised_host_identifier_witness :
  String.length "abcdefghijk" = 11 /\ all_chars id_char "abcdefghijk" = true.
Proof.
  apply (unrecognised_host_identifier plain_stdlib
           "https://example.com/abcdefghijk?v=short" "abcdefghijk").
  - vm_compute. split; reflexivity.
  - vm_compute. reflexivity.
Defined.

(** Witness of X6: a short link with a path of two slashes. *)
Lemma empty_identifier_only_from_path_witness :
  exists parsed_url,
    urlparse plain_stdlib "https://youtu.be//" = Ok parsed_url
    /\ ((contains "youtu.be" (netloc parsed_url) = true
         /\ all_chars (Ascii.eqb "/") (path parsed_url) = true)
        \/ (contains "youtu.be" (netloc parsed_url) = false
            /\ contains "youtube.com" (netloc parsed_url) = true
            /\ contains "/embed/" (path parsed_url) = true)).
Proof.
  apply (empty_identifier_only_from_path plain_stdlib "https://youtu.be//").
  - intros s Hs. exact Hs.
  - vm_compute. reflexivity.
Defined.

(** ** The transcript fetcher, continued *)

Lemma translation_pass_exhausted (ds : list descriptor) :
  Forall translation_fails ds ->
  translation_pass ds = IO (flat_map translation_calls ds) (Ok None).
Proof.
  intros Hall. rewrite <- (app_nil_r ds) at 1.
  rewrite (translation_pass_skip ds [] Hall). simpl.
  rewrite app_nil_r. reflexivity.
Qed.

(** The second loop either runs through the whole list for nothing, or
    stops at the first descriptor whose translation can be fetched. *)
Lemma translation_pass_decide (ds : list descriptor) :
  Forall translation_fails ds
  \/ exists before d after t segments,
       ds = before ++ d :: after
       /\ Forall translation_fails before
       /\ translate d "en" = Ok t
       /\ fetch t = Ok segments.
Proof.
  induction ds as [|x ds IH].
  - left. constructor.
  - destruct (translate x "en") as [t|e] eqn:Ht.
    + destruct (fetch t) as [segments|e] eqn:Hfetch.
      * right. exists [], x, ds, t, segments. repeat split; auto.
      * assert (Hx : translation_fails x) by (right; eauto).
        destruct IH as [Hall|(before & d & after & t' & segments & -> & Hb & Hd & Hf)].
        -- left. constructor; assumption.
        -- right. exists (x :: before), d, after, t', segments.
           repeat split; auto.
    + assert (Hx : translation_fails x) by (left; eauto).
      destruct IH as [Hall|(before & d & after & t' & segments & -> & Hb & Hd & Hf)].
      * left. constructor; assumption.
      * right. exists (x :: before), d, after, t', segments.
        repeat split; auto.
Qed.

Lemma get_transcript_list_raises (svc : service) (video_id : string) (e : exn) :
  falsy (Some video_id) = false ->
  api_list svc video_id = Raise e ->
  get_transcript svc (Some video_id) = IO [EList video_id] (Ok None).
Proof.
  intros Hvid Hlist. unfold get_transcript. rewrite Hvid.
  unfold call. rewrite Hlist. destruct e; reflexivity.
Qed.

(** The three ways a run on a list of descriptors can go. *)
Lemma get_transcript_cases (svc : service) (video_id : string)
    (ds : list descriptor) :
  falsy (Some video_id) = false ->
  api_list svc video_id = Ok ds ->
  (exists before d after segments,
     ds = before ++ d :: after
     /\ Forall english_fails before
     /\ is_english d = true
     /\ fetch d = Ok segments
     /\ get_transcript svc (Some video_id)
        = IO (EList video_id :: map EFetch (List.filter is_english before)
                ++ [EFetch d])
             (Ok (Some segments)))
  \/ (exists before d after t segments,
        ds = before ++ d :: after
        /\ Forall english_fails ds
        /\ Forall translation_fails before
        /\ translate d "en" = Ok t
        /\ fetch t = Ok segments
        /\ get_transcript svc (Some video_id)
           = IO (EList video_id :: map EFetch (List.filter is_english ds)
                   ++ flat_map translation_calls before
                   ++ [ETranslate d "en"; EFetch t])
                (Ok (Some segments)))
  \/ (Forall english_fails ds
      /\ Forall translation_fails ds
      /\ get_transcript svc (Some video_id)
         = IO (EList video_id :: map EFetch (List.filter is_english ds)
                 ++ flat_map translation_calls ds)
              (Ok None)).
Proof.
  intros Hvid Hlist.
  destruct (english_pass_decide ds)
    as [Hall|(before & d & after & segments & Hds & Hb & Hd & Hf)].
  - destruct (get_transcript_translation svc video_id ds Hvid Hlist Hall)
      as (r & Hr & Hrun).
    destruct (translation_pass_decide ds)
      as [Hnone|(before & d & after & t & segments & Hds & Hb & Ht & Hf)].
    + right. right. split; [exact Hall|]. split; [exact Hnone|].
      rewrite Hrun. rewrite (translation_pass_exhausted ds Hnone) in Hr |- *.
      cbn [trace result] in Hr |- *. injection Hr as <-. reflexivity.
    + right. left. exists before, d, after, t, segments.
      repeat (split; [assumption|]).
      rewrite Hrun. subst ds.
      rewrite (translation_pass_skip before (d :: after) Hb) in Hr |- *.
      rewrite (translation_pass_hit d t after segments Ht Hf) in Hr |- *.
      cbn [trace result] in Hr |- *. injection Hr as <-. reflexivity.
  - left. exists before, d, after, segments.
    repeat (split; [assumption|]). subst ds.
    apply (get_transcript_english svc video_id before after d segments
             Hvid Hlist Hb Hd Hf).
Qed.

Lemma english_succeeds_not_fails (ds before after : list descriptor)
    (d : descriptor) (segments : list segment) :
  ds = before ++ d :: after ->
  is_english d = true -> fetch d = Ok segments ->
  Forall english_fails ds -> False.
Proof.
  intros -> Heng Hfetch Hall.
  apply Forall_app in Hall. destruct Hall as [_ Hall].
  inversion Hall as [|? ? Hd _]; subst.
  destruct (Hd Heng) as [e He]. congruence.
Qed.

Lemma translation_succeeds_not_fails (ds before after : list descriptor)
    (d t : descriptor) (segments : list segment) :
  ds = before ++ d :: after ->
  translate d "en" = Ok t -> fetch t = Ok segments ->
  Forall translation_fails ds -> False.
Proof.
  intros -> Ht Hfetch Hall.
  apply Forall_app in Hall. destruct Hall as [_ Hall].
  inversion Hall as [|? ? Hd _]; subst.
  destruct Hd as [[e He]|(t' & e & Ht' & He)]; congruence.
Qed.

(** X7. For an identifier that is not empty, [None] is returned exactly
    when the list call raises, or when no English descriptor can be fetched
    and no descriptor has a translation that can be fetched.  In the first
    case the list call is the only call (it is not tried again); in the
    second, every English descriptor was fetched once and every descriptor
    was asked for a translation once, in the order of the list. *)
Theorem unavailable_exactly_when_nothing_fetched (svc : service) (video_id : string) :
  falsy (Some video_id) = false ->
  (result (get_transcript svc (Some video_id)) = Ok None
   <-> (exists e, api_list svc video_id = Raise e)
       \/ (exists ds, api_list svc video_id = Ok ds
                      /\ Forall english_fails ds
                      /\ Forall translation_fails ds))
  /\ (forall e, api_list svc video_id = Raise e ->
        trace (get_transcript svc (Some video_id)) = [EList video_id])
  /\ (forall ds, api_list svc video_id = Ok ds ->
        Forall english_fails ds -> Forall translation_fails ds ->
        trace (get_transcript svc (Some video_id))
        = EList video_id :: map EFetch (List.filter is_english ds)
            ++ flat_map translation_calls ds).
Proof.
  intros Hvid. split; [|split].
  - destruct (api_list svc video_id) as [ds|e] eqn:Hlist.
    + destruct (get_transcript_cases svc video_id ds Hvid Hlist)
        as [(before & d & after & segments & Hds & Hb & Hd & Hf & Hrun)
           |[(before & d & after & t & segments & Hds & Hall & Hb & Ht & Hf & Hrun)
            |(Hall & Hnone & Hrun)]]; rewrite Hrun; cbn [result].
      * split; [discriminate|].
        intros [[e He]|(ds' & [= <-] & Hall & _)]; [discriminate|].
        exfalso. eapply english_succeeds_not_fails; eassumption.
      * split; [discriminate|].
        intros [[e He]|(ds' & [= <-] & _ & Hnone)]; [discriminate|].
        exfalso. eapply translation_succeeds_not_fails; eassumption.
      * split; [|reflexivity]. intros _. right. exists ds. auto.
    + rewrite (get_transcript_list_raises svc video_id e Hvid Hlist).
      split; [|reflexivity]. intros _. left. exists e. reflexivity.
  - intros e Hlist.
    rewrite (get_transcript_list_raises svc video_id e Hvid Hlist). reflexivity.
  - intros ds Hlist Hall Hnone.
    destruct (get_transcript_cases svc video_id ds Hvid Hlist)
      as [(before & d & after & segments & Hds & Hb & Hd & Hf & Hrun)
         |[(before & d & after & t & segments & Hds & _ & Hb & Ht & Hf & Hrun)
          |(_ & _ & Hrun)]].
    + exfalso. eapply english_succeeds_not_fails; eassumption.
    + exfalso. eapply translation_succeeds_not_fails; eassumption.
    + rewrite Hrun. reflexivity.
Qed.

(** X8. A transcript that is returned is what the last call to the service
    returned: the fetch of an English descriptor of the list, or, after
    the first pass got nothing, the fetch of the translation to "en" of a
    descriptor of the list. *)
Theorem returned_transcript_was_fetched (svc : service) (video_id : string)
    (segments : list segment) :
  result (get_transcript svc (Some video_id)) = Ok (Some segments) ->
  exists ds source,
    api_list svc video_id = Ok ds
    /\ last (trace (get_transcript svc (Some video_id))) = Some (EFetch source)
    /\ fetch source = Ok segments
    /\ ((In source ds /\ is_english source = true)
        \/ (Forall english_fails ds
            /\ exists d, In d ds /\ translate d "en" = Ok source)).
Proof.
  intros Hresult.
  destruct (falsy (Some video_id)) eqn:Hvid.
  { unfold get_transcript in Hresult. rewrite Hvid in Hresult. discriminate. }
  destruct (api_list svc video_id) as [ds|e] eqn:Hlist.
  2: { rewrite (get_transcript_list_raises svc video_id e Hvid Hlist) in Hresult.
       discriminate. }
  exists ds.
  destruct (get_transcript_cases svc video_id ds Hvid Hlist)
    as [(before & d & after & segments' & Hds & Hb & Hd & Hf & Hrun)
       |[(before & d & after & t & segments' & Hds & Hall & Hb & Ht & Hf & Hrun)
        |(_ & _ & Hrun)]]; rewrite Hrun in Hresult |- *;
    cbn [result trace] in Hresult |- *; [| |discriminate];
    injection Hresult as ->.
  - exists d. split; [reflexivity|].
    split; [rewrite app_comm_cons; apply last_snoc|].
    split; [exact Hf|]. left. split; [|exact Hd].
    subst ds. apply in_or_app. right. left. reflexivity.
  - exists t. split; [reflexivity|].
    split.
    { change [ETranslate d "en"; EFetch t] with ([ETranslate d "en"] ++ [EFetch t]).
      rewrite app_comm_cons, !app_assoc. apply last_snoc. }
    split; [exact Hf|]. right. split; [exact Hall|].
    exists d. split; [|exact Ht].
    subst ds. apply in_or_app. right. left. reflexivity.
Qed.

Lemma translation_calls_length (ds : list descriptor) :
  length (flat_map translation_calls ds) <= 2 * length ds.
Proof.
  induction ds as [|d ds IH]; [simpl; lia|].
  cbn [flat_map length]. rewrite length_app. unfold translation_calls in *.
  destruct (translate d "en"); cbn [length]; lia.
Qed.

(** X9. The service is called at most [1 + 3 n] times for a list of [n]
    descriptors: the list call, at most one fetch per descriptor in the
    first pass, at most one translation and one fetch per descriptor in
    the second; nothing is tried twice. *)
Theorem service_calls_bounded (svc : service) (video_id : string)
    (ds : list descriptor) :
  api_list svc video_id = Ok ds ->
  length (trace (get_transcript svc (Some video_id))) <= 1 + 3 * length ds.
Proof.
  intros Hlist.
  destruct (falsy (Some video_id)) eqn:Hvid.
  { unfold get_transcript. rewrite Hvid. simpl. lia. }
  pose proof (fun l => List.filter_length_le is_english l) as Hfilter.
  destruct (get_transcript_cases svc video_id ds Hvid Hlist)
    as [(before & d & after & segments & Hds & _ & _ & _ & Hrun)
       |[(before & d & after & t & segments & Hds & _ & _ & _ & _ & Hrun)
        |(_ & _ & Hrun)]]; rewrite Hrun; cbn [trace length];
    rewrite ?length_app, ?length_map; cbn [length].
  - subst ds. rewrite length_app. cbn [length].
    specialize (Hfilter before). lia.
  - pose proof (translation_calls_length before) as Hcalls.
    specialize (Hfilter ds). subst ds.
    rewrite length_app in *. cbn [length] in *. lia.
  - pose proof (translation_calls_length ds) as Hcalls.
    specialize (Hfilter ds). lia.
Qed.

Lemma in_translation_calls (ds : list descriptor) (x : descriptor) :
  In (EFetch x) (flat_map translation_calls ds) ->
  exists d, In d ds /\ translate d "en" = Ok x.
Proof.
  rewrite in_flat_map. intros (d & Hd & Hev). exists d. split; [exact Hd|].
  unfold translation_calls in Hev. destruct Hev as [Hev|Hev]; [discriminate|].
  destruct (translate d "en") as [t|e]; [|destruct Hev].
  destruct Hev as [[= ->]|[]]. reflexivity.
Qed.

Lemma in_english_fetches (ds : list descriptor) (x : descriptor) :
  In (EFetch x) (map EFetch (List.filter is_english ds)) ->
  In x ds /\ is_english x = true.
Proof.
  rewrite in_map_iff. intros (d & [= ->] & Hd).
  apply List.filter_In in Hd. exact Hd.
Qed.

(** X10. A descriptor is fetched only if it is a descriptor of the list
    that qualifies as English, or the translation to "en" of a descriptor
    of the list: a track in another language is never fetched as it is. *)
Theorem fetched_tracks_are_english (svc : service) (video_id : string)
    (ds : list descriptor) (x : descriptor) :
  api_list svc video_id = Ok ds ->
  In (EFetch x) (trace (get_transcript svc (Some video_id))) ->
  (In x ds /\ is_english x = true)
  \/ (exists d, In d ds /\ translate d "en" = Ok x).
Proof.
  intros Hlist Hev.
  destruct (falsy (Some video_id)) eqn:Hvid.
  { unfold get_transcript in Hev. rewrite Hvid in Hev. destruct Hev. }
  destruct (get_transcript_cases svc video_id ds Hvid Hlist)
    as [(before & d & after & segments & Hds & _ & Hd & _ & Hrun)
       |[(before & d & after & t & segments & Hds & _ & _ & Ht & _ & Hrun)
        |(_ & _ & Hrun)]]; rewrite Hrun in Hev; cbn [trace] in Hev;
    destruct Hev as [Hev|Hev]; try discriminate;
    apply in_app_or in Hev.
  - left. subst ds. destruct Hev as [Hev|[[= <-]|[]]].
    + apply in_english_fetches in Hev. destruct Hev as [Hin Heng].
      split; [apply in_or_app; left; exact Hin | exact Heng].
    + split; [apply in_or_app; right; left; reflexivity | exact Hd].
  - destruct Hev as [Hev|Hev].
    + left. apply in_english_fetches, Hev.
    + right. apply in_app_or in Hev. destruct Hev as [Hev|[Hev|[[= <-]|[]]]].
      * destruct (in_translation_calls before x Hev) as (d' & Hd' & Ht').
        exists d'. split; [|exact Ht']. subst ds. apply in_or_app. left. exact Hd'.
      * discriminate.
      * exists d. split; [|exact Ht]. subst ds.
        apply in_or_app. right. left. reflexivity.
  - destruct Hev as [Hev|Hev].
    + left. apply in_english_fetches, Hev.
    + right. apply in_translation_calls, Hev.
Qed.

(** Witness of X7: an English track whose fetch raises and a French one,
    neither of which can be translated. *)
Lemma unavailable_exactly_when_nothing_fetched_witness :
  result (get_transcript (service_of [track_en_broken; track_fr])
            (Some "dQw4w9WgXcQ")) = Ok None
  /\ trace (get_transcript (service_of [track_en_broken; track_fr])
              (Some "dQw4w9WgXcQ"))
     = [EList "dQw4w9WgXcQ"; EFetch track_en_broken;
        ETranslate track_en_broken "en"; ETranslate track_fr "en"].
Proof.
  destruct (unavailable_exactly_when_nothing_fetched
              (service_of [track_en_broken; track_fr]) "dQw4w9WgXcQ" eq_refl)
    as (Hiff & _ & Htrace).
  assert (Henglish : Forall english_fails [track_en_broken; track_fr]).
  { constructor; [intros _; eexists; reflexivity|].
    constructor; [|constructor].
    intros Heng. vm_compute in Heng. discriminate. }
  assert (Hnone : Forall translation_fails [track_en_broken; track_fr]).
  { repeat (constructor; [left; eexists; reflexivity|]). constructor. }
  split.
  - apply Hiff. right. exists [track_en_broken; track_fr]. auto.
  - apply (Htrace [track_en_broken; track_fr] eq_refl Henglish Hnone).
Defined.

(** Witness of X8: the translation of the Spanish track. *)
Lemma returned_transcript_was_fetched_witness :
  exists ds source,
    api_list (service_of [track_fr; track_es]) "dQw4w9WgXcQ" = Ok ds
    /\ last (trace (get_transcript (service_of [track_fr; track_es])
                      (Some "dQw4w9WgXcQ"))) = Some (EFetch source)
    /\ fetch source = Ok [hello]
    /\ ((In source ds /\ is_english source = true)
        \/ (Forall english_fails ds
            /\ exists d, In d ds /\ translate d "en" = Ok source)).
Proof.
  apply (returned_transcript_was_fetched (service_of [track_fr; track_es])
           "dQw4w9WgXcQ" [hello]).
  vm_compute. reflexivity.
Defined.

(** Witness of X9: three tracks, eight calls. *)
Lemma service_calls_bounded_witness :
  length (trace (get_transcript (service_of [track_en_broken; track_fr; track_es])
                   (Some "dQw4w9WgXcQ")))
  <= 1 + 3 * length [track_en_broken; track_fr; track_es].
Proof.
  apply (service_calls_bounded (service_of [track_en_broken; track_fr; track_es])
           "dQw4w9WgXcQ" [track_en_broken; track_fr; track_es]).
  reflexivity.
Defined.

(** Witness of X10: the translation of the Spanish track is fetched. *)
Lemma fetched_tracks_are_english_witness :
  (In track_es_translated [track_fr; track_es]
   /\ is_english track_es_translated = true)
  \/ (exists d, In d [track_fr; track_es]
                /\ translate d "en" = Ok track_es_translated).
Proof.
  apply (fetched_tracks_are_english (service_of [track_fr; track_es])
           "dQw4w9WgXcQ" [track_fr; track_es] track_es_translated).
  - reflexivity.
  - vm_compute. auto.
Defined.

(** ** The prompt builder, continued *)

Lemma startswith_append (a t : string) : startswith a (a +:+ t) = true.
Proof.
  induction a as [|x a IH]; [apply startswith_empty|].
  rewrite append_cons, startswith_cons. exact IH.
Qed.

(** The loop appends the same text whatever the prompt it starts from, or
    raises [TypeError] whatever the prompt; it raises when a segment is not
    well formed, and then only. *)
Lemma prompt_loop_uniform (segments : list segment) :
  (Forall (fun trans => well_formed trans = true) segments
   /\ exists texts,
        Forall2 (fun trans t => text_of_segment trans = Some t) segments texts
        /\ forall prompt,
             prompt_loop segments prompt
             = Ok (prompt +:+ join (map (String.append " ") texts)))
  \/ (Exists (fun trans => well_formed trans = false) segments
      /\ forall prompt, prompt_loop segments prompt = Raise TypeError).
Proof.
  induction segments as [|trans segments IH].
  - left. split; [constructor|]. exists []. split; [constructor|].
    intros prompt. simpl. rewrite append_empty_r. reflexivity.
  - destruct (text_of_segment trans) as [t|] eqn:Ht.
    + assert (Hwf : well_formed trans = true)
        by (unfold well_formed; rewrite Ht; reflexivity).
      destruct IH as [(Hall & texts & Htexts & Hloop)|(Hex & Hloop)].
      * left. split; [constructor; assumption|].
        exists (t :: texts). split; [constructor; assumption|].
        intros prompt. simpl. rewrite appended_text, Ht. cbn.
        rewrite Hloop, append_assoc. reflexivity.
      * right. split; [apply Exists_cons_tl, Hex|].
        intros prompt. simpl. rewrite appended_text, Ht. cbn. apply Hloop.
    + right. split.
      * apply Exists_cons_hd. unfold well_formed. rewrite Ht. reflexivity.
      * intros prompt. simpl. rewrite appended_text, Ht. reflexivity.
Qed.

Lemma well_formed_excludes (segments : list segment) :
  Forall (fun trans => well_formed trans = true) segments ->
  Exists (fun trans => well_formed trans = false) segments -> False.
Proof.
  intros Hall Hex. rewrite Forall_forall in Hall. rewrite Exists_exists in Hex.
  destruct Hex as (trans & Hin & Hill). rewrite (Hall trans Hin) in Hill.
  discriminate.
Qed.

(** X11. [generate_prompt_from_transcript] raises exactly when some segment
    holds something that is not a string where its text is looked for (a
    [text] attribute, or the value at the key ["text"] of a mapping); what
    it raises then is [TypeError]; it returns exactly when every segment
    is well formed. *)
Theorem prompt_raises_exactly_on_non_text (segments : list segment) :
  (generate_prompt_from_transcript (Some segments) = Raise TypeError
   <-> Exists (fun trans => well_formed trans = false) segments)
  /\ ((exists prompt, generate_prompt_from_transcript (Some segments) = Ok prompt)
      <-> Forall (fun trans => well_formed trans = true) segments)
  /\ (forall e, generate_prompt_from_transcript (Some segments) = Raise e ->
        e = TypeError).
Proof.
  unfold generate_prompt_from_transcript.
  destruct (prompt_loop_uniform segments)
    as [(Hall & texts & _ & Hloop)|(Hex & Hloop)]; rewrite Hloop.
  - split; [|split].
    + split; [discriminate|]. intros Hex. exfalso.
      eapply well_formed_excludes; eassumption.
    + split; [intros _; exact Hall | eauto].
    + discriminate.
  - split; [|split].
    + split; [intros _; exact Hex | reflexivity].
    + split; [intros [prompt H]; discriminate|].
      intros Hall. exfalso. eapply well_formed_excludes; eassumption.
    + intros e [= <-]. reflexivity.
Qed.

(** X12. The prompt of two lists of segments put end to end is the prompt
    of the first followed by what the second adds to the header. *)
Theorem prompt_of_concatenation (first second : list segment)
    (added_first added_second : string) :
  generate_prompt_from_transcript (Some first) = Ok (header +:+ added_first) ->
  generate_prompt_from_transcript (Some second) = Ok (header +:+ added_second) ->
  generate_prompt_from_transcript (Some (first ++ second))
  = Ok (header +:+ added_first +:+ added_second).
Proof.
  unfold generate_prompt_from_transcript.
  destruct (prompt_loop_uniform first)
    as [(_ & texts1 & Htexts1 & Hloop1)|(_ & Hloop1)];
    rewrite Hloop1; [|discriminate].
  destruct (prompt_loop_uniform second)
    as [(_ & texts2 & Htexts2 & Hloop2)|(_ & Hloop2)];
    rewrite Hloop2; [|discriminate].
  intros [= H1] [= H2].
  assert (H1' : join (map (String.append " ") texts1) = added_first) by exact H1.
  assert (H2' : join (map (String.append " ") texts2) = added_second) by exact H2.
  clear H1 H2. subst.
  rewrite (prompt_loop_texts (first ++ second) (texts1 ++ texts2)
             ltac:(apply Forall2_app; assumption)).
  rewrite map_app. unfold join. rewrite fold_right_app.
  f_equal. f_equal.
  generalize (map (String.append " ") texts1). intros pieces.
  induction pieces as [|piece pieces IH]; [reflexivity|].
  cbn [fold_right]. rewrite append_assoc, <- IH. reflexivity.
Qed.

(** X13. A prompt that is returned starts with the header and has, after
    it, one character at least for each segment: nothing is trimmed. *)
Theorem prompt_starts_with_header (segments : list segment) (prompt : string) :
  generate_prompt_from_transcript (Some segments) = Ok prompt ->
  startswith header prompt = true
  /\ String.length header + length segments <= String.length prompt.
Proof.
  unfold generate_prompt_from_transcript.
  destruct (prompt_loop_uniform segments)
    as [(_ & texts & Htexts & Hloop)|(_ & Hloop)];
    rewrite Hloop; [|discriminate].
  intros [= <-]. split; [apply startswith_append|].
  rewrite length_append. apply Nat.add_le_mono_l.
  clear Hloop. induction Htexts as [|trans t segments texts _ _ IH]; [simpl; lia|].
  cbn [map join fold_right length]. fold (join (map (String.append " ") texts)).
  rewrite length_append.
  change (" " +:+ t) with (String " " t). cbn [String.length]. lia.
Qed.

Lemma prompt_loop_replace (before after : list segment) (a b : segment) :
  appended a = appended b ->
  forall prompt,
    prompt_loop (before ++ a :: after) prompt
    = prompt_loop (before ++ b :: after) prompt.
Proof.
  intros Hab. induction before as [|trans before IH]; intros prompt; simpl.
  - rewrite Hab. reflexivity.
  - destruct (appended trans) as [piece|e]; cbn; [apply IH | reflexivity].
Qed.

(** X14. Only the text of a segment reaches the prompt: the start and the
    duration of an object, and the entries of a mapping at other keys than
    ["text"], can be changed or removed without changing the result. *)
Theorem prompt_ignores_other_fields (before after : list segment) :
  (forall text start duration start' duration',
     generate_prompt_from_transcript
       (Some (before ++ Snippet text start duration :: after))
     = generate_prompt_from_transcript
         (Some (before ++ Snippet text start' duration' :: after)))
  /\ (forall (d : gmap string pyval) key value,
        key <> "text" ->
        generate_prompt_from_transcript
          (Some (before ++ Mapping (<[key := value]> d) :: after))
        = generate_prompt_from_transcript (Some (before ++ Mapping d :: after))
        /\ generate_prompt_from_transcript
             (Some (before ++ Mapping (delete key d) :: after))
           = generate_prompt_from_transcript (Some (before ++ Mapping d :: after))).
Proof.
  unfold generate_prompt_from_transcript. split.
  - intros. apply prompt_loop_replace. reflexivity.
  - intros d key value Hkey. split; apply prompt_loop_replace; simpl; unfold dict_get.
    + rewrite lookup_insert_ne by exact Hkey. reflexivity.
    + rewrite lookup_delete_ne by exact Hkey. reflexivity.
Qed.

(** Witness of X11: a mapping whose text is [None]. *)
Lemma prompt_raises_exactly_on_non_text_witness :
  generate_prompt_from_transcript
    (Some [hello; Mapping {["text" := PNone]}; hola]) = Raise TypeError
  /\ (exists prompt,
        generate_prompt_from_transcript (Some [hello; Mapping no_text]) = Ok prompt).
Proof.
  split.
  - apply (proj1 (prompt_raises_exactly_on_non_text
                    [hello; Mapping {["text" := PNone]}; hola])).
    apply Exists_cons_tl, Exists_cons_hd. vm_compute. reflexivity.
  - apply (proj1 (proj2 (prompt_raises_exactly_on_non_text
                           [hello; Mapping no_text]))).
    repeat constructor.
Defined.

(** Witness of X12: two lists of two segments. *)
Lemma prompt_of_concatenation_witness :
  generate_prompt_from_transcript (Some ([hello; Mapping no_text] ++ [hola; Other "42"]))
  = Ok (header +:+ " hello " +:+ " hola 42").
Proof.
  apply (prompt_of_concatenation [hello; Mapping no_text] [hola; Other "42"]
           " hello " " hola 42").
  - vm_compute. reflexivity.
  - vm_compute. reflexivity.
Defined.

(** Witness of X13: three segments, one of them without text. *)
Lemma prompt_starts_with_header_witness :
  startswith header (header +:+ " hello  hola") = true
  /\ String.length header + length [hello; Mapping no_text; hola]
     <= String.length (header +:+ " hello  hola").
Proof.
  apply (prompt_starts_with_header [hello; Mapping no_text; hola]).
  vm_compute. reflexivity.
Defined.

(** Witness of X14: a duration added to, and removed from, a mapping. *)
Lemma prompt_ignores_other_fields_witness :
  generate_prompt_from_transcript
    (Some ([hello] ++ Mapping (<["duration" := PFloat 1]> no_text) :: [hola]))
  = generate_prompt_from_transcript (Some ([hello] ++ Mapping no_text :: [hola]))
  /\ generate_prompt_from_transcript
       (Some ([hello] ++ Mapping (delete "duration" no_text) :: [hola]))
     = generate_prompt_from_transcript (Some ([hello] ++ Mapping no_text :: [hola])).
Proof.
  apply (proj2 (prompt_ignores_other_fields [hello] [hola])
           no_text "duration" (PFloat 1)).
  discriminate.
Defined.
